(** * pms_server: worker-pool dispatcher, channel registry, liveness
      supervisor (src/server.js) and database worker (src/worker/db_worker.js).

    The development is a shallow embedding: every handler of the two
    source files is a Rocq function over an explicit state, and the
    events the Node.js runtime delivers to them (timer ticks, socket
    events, worker messages) are the constructors of an event type. *)

From stdpp Require Import base option list strings gmap.

Set Default Proof Using "Type".
Open Scope string_scope.
Open Scope list_scope.

(** ** JavaScript values that cross the wire

    Frames are produced by [JSON.parse]; the fields of a job are whatever
    the client put there, including nothing at all ([undefined]).  Only
    the comparison with the number [0] is ever made on numbers, so the
    integers stand for them. *)

#[warnings="-register-all"]
Inductive JSVal : Type :=
  | JUndefined
  | JNull
  | JBool (b : bool)
  | JNum (z : Z)
  | JStr (s : string)
  | JArr (items : list JSVal)
  | JObj (fields : list (string * JSVal)).

(** [v === s] for a string literal [s]. *)
Definition strict_eq_str (v : JSVal) (s : string) : bool :=
  match v with
  | JStr t => bool_decide (t = s)
  | _ => false
  end.

(** [v === 0]. *)
Definition strict_eq_zero (v : JSVal) : bool :=
  match v with
  | JNum z => bool_decide (z = 0%Z)
  | _ => false
  end.

(** Property read [o.k] for the names the sources read ([channel],
    [cluster_id], ...): [undefined] when the property is absent, and on
    primitives and arrays, which have none of them. *)
Fixpoint assoc_get {A} (k : string) (l : list (string * A)) : option A :=
  match l with
  | [] => None
  | (k', v) :: rest => if bool_decide (k' = k) then Some v else assoc_get k rest
  end.

Definition get_prop (v : JSVal) (k : string) : JSVal :=
  match v with
  | JObj fields => default JUndefined (assoc_get k fields)
  | _ => JUndefined
  end.

(** The message the dispatcher posts to a worker: [{ type, request, data }]. *)
Record Job : Type := mkJob {
  type : JSVal;
  request : JSVal;
  data : JSVal
}.

(** The message a worker posts back: [{ result, error }]. *)
Record Completion : Type := mkCompletion {
  result : string;
  error : option string
}.

(** ** The dispatcher: [workerPool], [requestQueue] (src/server.js 8-59) *)

Module Dispatcher.

(** A worker as the main thread sees it.  [busy] is the flag the source
    sets on the worker object (it starts out [undefined], which the
    test [!worker.busy] treats as [false]); [inbox] holds the jobs
    handed over with [worker.postMessage] to which the worker thread has
    not answered yet. *)
Record Worker : Type := mkWorker {
  busy : bool;
  inbox : list Job
}.

(** [workerPool] is a JavaScript [Set]: it iterates in insertion order,
    so a list whose positions are the workers' identities.  [posted] is
    the trace of the [postMessage] calls, oldest first. *)
Record Pool : Type := mkPool {
  workerPool : list Worker;
  requestQueue : list Job;
  posted : list (nat * Job)
}.

Definition workerPoolSize : nat := 3.

Definition idle (w : Worker) : Prop := busy w = false.

#[global] Instance idle_dec w : Decision (idle w).
Proof. unfold idle. apply _. Defined.

(** [createWorkerPool], for a pool of [n] workers. *)
Definition createWorkerPoolOf (n : nat) : Pool :=
  mkPool (replicate n (mkWorker false [])) [] [].

Definition createWorkerPool : Pool := createWorkerPoolOf workerPoolSize.

(** [[...workerPool].find(worker => !worker.busy)] *)
Definition finAvailableWorker (p : Pool) : option (nat * Worker) :=
  list_find idle (workerPool p).

Definition assignWorkToWorker (j : Job) (p : Pool) : Pool :=
  match finAvailableWorker p with
  | Some (i, w) =>
      mkPool (<[i := mkWorker true (inbox w ++ [j])]> (workerPool p))
             (requestQueue p)
             (posted p ++ [(i, j)])
  | None =>
      mkPool (workerPool p) (requestQueue p ++ [j]) (posted p)
  end.

(** The ['message'] handler that [handleWorkerMessages] installs on
    worker [i].  The text of the message is only logged. *)
Definition handleWorkerMessages (i : nat) (m : Completion) (p : Pool) : Pool :=
  let pool1 := alter (fun w => mkWorker false (inbox w)) i (workerPool p) in
  match requestQueue p with
  | j :: rest => assignWorkToWorker j (mkPool pool1 rest (posted p))
  | [] => mkPool pool1 [] (posted p)
  end.

(** The worker thread's side of a completion: the job it answers leaves
    its inbox. *)
Definition workerAnswers (i : nat) (p : Pool) : Pool :=
  mkPool (alter (fun w => mkWorker (busy w) (tail (inbox w))) i (workerPool p))
         (requestQueue p) (posted p).

Inductive Event : Type :=
  | Submit (j : Job)
  | Complete (i : nat) (m : Completion).

(** A completion signal comes from a worker that was handed a job. *)
Definition enabled (e : Event) (p : Pool) : bool :=
  match e with
  | Submit _ => true
  | Complete i _ =>
      match workerPool p !! i with
      | Some w => negb (bool_decide (inbox w = []))
      | None => false
      end
  end.

Definition step (e : Event) (p : Pool) : Pool :=
  match e with
  | Submit j => assignWorkToWorker j p
  | Complete i m => handleWorkerMessages i m (workerAnswers i p)
  end.

Fixpoint run (tr : list Event) (p : Pool) : option Pool :=
  match tr with
  | [] => Some p
  | e :: tr' => if enabled e p then run tr' (step e p) else None
  end.

Definition submitted (tr : list Event) : list Job :=
  omap (fun e => match e with Submit j => Some j | _ => None end) tr.

Definition completed (tr : list Event) : nat :=
  length (omap (fun e => match e with Complete i _ => Some i | _ => None end) tr).

Definition busyCount (p : Pool) : nat :=
  length (filter (fun w => busy w = true) (workerPool p)).

(** What holds of the pool between two events: a busy worker has exactly
    the one job it was handed, an idle one has none, and a job waits
    in the queue only while every worker is busy. *)
Definition worker_ok (w : Worker) : Prop :=
  (busy w = true /\ exists j, inbox w = [j]) \/ (busy w = false /\ inbox w = []).

Definition Inv (p : Pool) : Prop :=
  Forall worker_ok (workerPool p) /\
  (requestQueue p <> [] -> Forall (fun w => busy w = true) (workerPool p)).

Definition b2n (b : bool) : nat := if b then 1 else 0.

(** Sample jobs and a sample run on the pool of three workers: four
    submissions (the fourth has to wait), then worker 1 reports an error. *)
Definition jobA : Job :=
  mkJob (JNum 0) (JStr "insert") (JObj [("cluster_id", JStr "c1")]).
Definition jobB : Job :=
  mkJob (JNum 1) (JStr "insert")
        (JObj [("cluster_id", JStr "c1"); ("temperature", JNum 21); ("humidity", JNum 40)]).
Definition lost : Completion := mkCompletion "error" (Some "connection lost").
Definition fine : Completion := mkCompletion "success" None.

Definition sampleRun : list Event :=
  [Submit jobA; Submit jobB; Submit jobA; Submit jobB; Complete 1 lost].

Definition fullPool : Pool :=
  mkPool [mkWorker true [jobA]; mkWorker true [jobB]; mkWorker true [jobA]]
         [jobB; jobA]
         [(0, jobA); (1, jobB); (2, jobA)].

Definition halfPool : Pool :=
  mkPool [mkWorker true [jobA]; mkWorker false []; mkWorker false []] []
         [(0, jobA)].

(** The pool after the jobs [js] were submitted to a fresh pool of [n]
    workers and nothing was answered yet. *)
Definition burstPool (n : nat) (js : list Job) : Pool :=
  mkPool (((fun j => mkWorker true [j]) <$> take n js)
            ++ replicate (n - length js) (mkWorker false []))
         (drop n js)
         (imap (fun i j => (i, j)) (take n js)).

Definition isCompleteOf (i : nat) (e : Event) : bool :=
  match e with Complete k _ => bool_decide (k = i) | Submit _ => false end.

End Dispatcher.

(** ** Channels, connections and the heartbeat (src/server.js 61-134) *)

Module Server.

(** A client socket; the number is the identity of the object. *)
Definition Conn : Type := nat.

(** What the handlers do to the outside world, in call order. *)
Inductive Action : Type :=
  | Send (c : Conn) (text : string)
  | Ping (c : Conn)
  | Terminate (c : Conn)
  | ClearInterval (c : Conn)
  | Cleanup (c : Conn).

#[global] Instance Action_eq_dec : EqDecision Action.
Proof. solve_decision. Defined.

(** The closure of one [handleSocketConnection] call, [isAlive] and the
    interval [heartbeat] (armed or cleared), next to what the socket
    library knows of the transport: whether [terminate] was called and
    whether the ['close'] event has been emitted. *)
Record Client : Type := mkClient {
  isAlive : bool;
  heartbeat : bool;
  terminated : bool;
  closed : bool
}.

(** [channels] is a [Map] from names to arrays of sockets, iterated in
    insertion order. *)
Record State : Type := mkState {
  pool : Dispatcher.Pool;
  channels : list (string * list Conn);
  clients : gmap Conn Client;
  log : list Action
}.

Definition init : State :=
  mkState Dispatcher.createWorkerPool [("backend", []); ("frontend", [])] ∅ [].

(** The probe period of [setInterval], in milliseconds, and the time at
    which the timer of a connection fires for the [k]-th time, counted
    from the moment the connection was accepted. *)
Definition heartbeatPeriod : Z := 30000.
Definition tickTime (k : nat) : Z := (Z.of_nat k * heartbeatPeriod)%Z.

Fixpoint assoc_alter {A} (f : A -> A) (k : string) (l : list (string * A)) :
    list (string * A) :=
  match l with
  | [] => []
  | (k', v) :: rest =>
      if bool_decide (k' = k) then (k', f v) :: rest
      else (k', v) :: assoc_alter f k rest
  end.

(** [subscribers.indexOf(clientWebSocket)] *)
Definition indexOf (c : Conn) (subscribers : list Conn) : option nat :=
  fst <$> list_find (fun x => x = c) subscribers.

(** [cleanupClient]: the loop over [channels.values()] stops at the
    first array that holds the socket. *)
Fixpoint cleanupClient (c : Conn) (chans : list (string * list Conn)) :
    list (string * list Conn) :=
  match chans with
  | [] => []
  | (name, subscribers) :: rest =>
      match indexOf c subscribers with
      | Some index => (name, delete index subscribers) :: rest
      | None => (name, subscribers) :: cleanupClient c rest
      end
  end.

Definition with_client (c : Conn) (cl : Client) (s : State) : State :=
  mkState (pool s) (channels s) (<[c := cl]> (clients s)) (log s).

Definition do_cleanup (c : Conn) (s : State) : State :=
  mkState (pool s) (cleanupClient c (channels s)) (clients s) (log s ++ [Cleanup c]).

(** [handleSocketConnection]: a fresh closure with [isAlive = true] and
    the interval armed. *)
Definition handleSocketConnection (c : Conn) (s : State) : State :=
  with_client c (mkClient true true false false) s.

(** The callback of [setInterval]. *)
Definition onHeartbeat (c : Conn) (cl : Client) (s : State) : State :=
  if negb (isAlive cl) then
    do_cleanup c
      (mkState (pool s) (channels s)
               (<[c := mkClient (isAlive cl) false true (closed cl)]> (clients s))
               (log s ++ [ClearInterval c; Terminate c]))
  else
    mkState (pool s) (channels s)
            (<[c := mkClient false (heartbeat cl) (terminated cl) (closed cl)]> (clients s))
            (log s ++ [Ping c]).

(** The ['pong'] handler. *)
Definition onPong (c : Conn) (cl : Client) (s : State) : State :=
  with_client c (mkClient true (heartbeat cl) (terminated cl) (closed cl)) s.

(** The ['message'] handler.  [parsed] is what [JSON.parse] makes of the
    frame, [None] when it throws; destructuring [null] throws as well.
    Both land in the [catch], which only logs to the console. *)
Definition onMessage (c : Conn) (parsed : option JSVal) (s : State) : State :=
  match parsed with
  | None | Some JNull | Some JUndefined => s
  | Some v =>
      let message_type := get_prop v "message_type" in
      let channel := get_prop v "channel" in
      let request := get_prop v "request" in
      let data := get_prop v "data" in
      match channel with
      | JStr name =>
          match assoc_get name (channels s) with
          | Some channelSubscribers =>
              let s1 :=
                if bool_decide (c ∈ channelSubscribers) then s
                else mkState (pool s)
                       (assoc_alter (fun subs => subs ++ [c]) name (channels s))
                       (clients s)
                       (log s ++ [Send c ("You are connected to the channel " +:+ name)])
              in
              if bool_decide (name = "backend") then
                mkState (Dispatcher.assignWorkToWorker (mkJob message_type request data) (pool s1))
                        (channels s1) (clients s1) (log s1)
              else s1
          | None => s
          end
      | _ => s
      end
  end.

(** The ['close'] handler; the library emits the event once per socket. *)
Definition onClose (c : Conn) (cl : Client) (s : State) : State :=
  do_cleanup c
    (with_client c (mkClient (isAlive cl) (heartbeat cl) (terminated cl) true) s).

Inductive Event : Type :=
  | Connection (c : Conn)
  | Tick (c : Conn)
  | Pong (c : Conn)
  | Message (c : Conn) (parsed : option JSVal)
  | Close (c : Conn)
  | WorkerMessage (i : nat) (m : Completion).

(** When the runtime can deliver an event: a timer fires while it is
    armed, frames and pongs arrive on a transport that is neither
    terminated nor closed, the close event comes once, a worker answers
    a job it was handed. *)
Definition enabled (e : Event) (s : State) : bool :=
  match e with
  | Connection c => bool_decide (clients s !! c = None)
  | Tick c =>
      match clients s !! c with Some cl => heartbeat cl | None => false end
  | Pong c | Message c _ =>
      match clients s !! c with
      | Some cl => negb (terminated cl) && negb (closed cl)
      | None => false
      end
  | Close c =>
      match clients s !! c with Some cl => negb (closed cl) | None => false end
  | WorkerMessage i m => Dispatcher.enabled (Dispatcher.Complete i m) (pool s)
  end.

Definition step (e : Event) (s : State) : State :=
  match e with
  | Connection c => handleSocketConnection c s
  | Tick c =>
      match clients s !! c with Some cl => onHeartbeat c cl s | None => s end
  | Pong c =>
      match clients s !! c with Some cl => onPong c cl s | None => s end
  | Message c parsed => onMessage c parsed s
  | Close c =>
      match clients s !! c with Some cl => onClose c cl s | None => s end
  | WorkerMessage i m =>
      mkState (Dispatcher.step (Dispatcher.Complete i m) (pool s))
              (channels s) (clients s) (log s)
  end.

Fixpoint run (tr : list Event) (s : State) : option State :=
  match tr with
  | [] => Some s
  | e :: tr' => if enabled e s then run tr' (step e s) else None
  end.

(** How often [cleanupClient] was called for [c]. *)
Definition cleanups (c : Conn) (l : list Action) : nat :=
  length (filter (fun a => a = Cleanup c) l).

Definition isTick (c : Conn) (e : Event) : bool :=
  match e with Tick c' => bool_decide (c' = c) | _ => false end.

Definition ticks (c : Conn) (tr : list Event) : nat :=
  length (List.filter (isTick c) tr).

Definition silent (c : Conn) (tr : list Event) : Prop :=
  Forall (fun e => match e with Pong c' => c' <> c | _ => True end) tr.

Definition subscribed (c : Conn) (name : string) (s : State) : Prop :=
  exists subs, assoc_get name (channels s) = Some subs /\ c ∈ subs.

(** The calls of [cleanupClient] for a connection, accounted for: one
    by the close handler once the close event was delivered, one by the
    heartbeat once it has cleared its interval. *)
Definition accounted (s : State) : Prop :=
  forall c,
    cleanups c (log s) =
    match clients s !! c with
    | Some cl => Dispatcher.b2n (closed cl) + Dispatcher.b2n (negb (heartbeat cl))
    | None => 0
    end.

(** The periods a connection survives without answering: two when the
    flag is set (one to clear it, one to find it unset), one when it is
    already unset. *)
Definition periodsLeft (cl : Client) : nat := if isAlive cl then 2 else 1.

(** The subscribers of a topic, none when the topic is unknown. *)
Definition subsOf (name : string) (chans : list (string * list Conn)) : list Conn :=
  default [] (assoc_get name chans).

(** The interval of every connection is armed exactly as long as the
    heartbeat has not terminated the transport. *)
Definition timers_follow_termination (s : State) : Prop :=
  forall c cl, clients s !! c = Some cl -> heartbeat cl = negb (terminated cl).

(** No array of the registry holds a socket twice. *)
Definition nodups (chans : list (string * list Conn)) : Prop :=
  Forall (fun kv => NoDup kv.2) chans.

(** How many entries of the registry, over all topics, are [c]. *)
Definition occurrences (c : Conn) (chans : list (string * list Conn)) : nat :=
  sum_list ((fun kv => length (filter (fun x => x = c) kv.2)) <$> chans).

(** How often the acknowledgment of topic [name] was sent to [c]. *)
Definition acks (c : Conn) (name : string) (l : list Action) : nat :=
  length (filter (fun a => a = Send c ("You are connected to the channel " +:+ name)) l).

(** What an event of the server means to the dispatcher: a decoded
    frame on ["backend"] is a submission, a worker message a
    completion, everything else nothing. *)
Definition toDispatcher (e : Event) : option Dispatcher.Event :=
  match e with
  | Message _ (Some v) =>
      if strict_eq_str (get_prop v "channel") "backend" then
        Some (Dispatcher.Submit
                (mkJob (get_prop v "message_type") (get_prop v "request")
                       (get_prop v "data")))
      else None
  | WorkerMessage i m => Some (Dispatcher.Complete i m)
  | _ => None
  end.

(** The connection let a probe go unanswered: two of its periods with
    no pong in between. *)
Definition missed (c : Conn) (tr : list Event) : Prop :=
  exists t1 t2 t3, tr = t1 ++ Tick c :: t2 ++ Tick c :: t3 /\ silent c t2.

(** A probe of the connection is outstanding at the end of [tr]. *)
Definition probing (c : Conn) (tr : list Event) : Prop :=
  exists t1 t2, tr = t1 ++ Tick c :: t2 /\ silent c t2.

(** Acknowledgments sent to a connection match its subscriptions while
    its transport is up, and are never repeated afterwards. *)
Definition acks_match (s : State) : Prop :=
  forall c name,
    if match clients s !! c with
       | Some cl => negb (terminated cl || closed cl)
       | None => true
       end
    then acks c name (log s)
         = Dispatcher.b2n (bool_decide (c ∈ subsOf name (channels s)))
    else acks c name (log s) <= 1.

(** Sample frames. *)
Definition frameOn (name : string) : JSVal :=
  JObj [("message_type", JNum 0); ("channel", JStr name);
        ("request", JStr "insert"); ("data", JObj [("cluster_id", JStr "c1")])].

End Server.

(** ** The database worker (src/worker/db_worker.js) *)

Module DbWorker.

Definition Row : Type := list (string * JSVal).

(** The connection pool [require('../db')] is not part of the sources at
    hand, so the worker is parameterised by it: acquiring a handle and
    running a statement either fail with a message or succeed, and all
    three operations may change the state of the backend. *)
Record Backend : Type := mkBackend {
  dbstate : Type;
  handle : Type;
  getConnection : dbstate -> (string + handle) * dbstate;
  query : handle -> string -> list JSVal -> dbstate -> (string + list Row) * dbstate;
  release : handle -> dbstate -> dbstate
}.

(** What one run of the message handler does, in order. *)
Inductive Ev : Type :=
  | Acquired
  | Query (sql : string) (args : list JSVal)
  | Released
  | Posted (m : Completion)
  | Unhandled (msg : string).

Definition selectQuery : string :=
  "SELECT cluster_id FROM cluster_records WHERE cluster_id = ?".
Definition insertClusterQuery : string :=
  "INSERT INTO cluster_records (cluster_id) VALUES (?)".
Definition insertSensorQuery : string :=
  "INSERT INTO sensor_records (cluster_id, temperature, humidity) VALUES (?, ?, ?)".

(** [postMessageToParent(result, error = null)] *)
Definition postMessageToParent (result : string) (error : option string) : Ev :=
  Posted (mkCompletion result error).

(** An [async] function that the caller does not await: [issued] is what
    it does before its first [await] hands control back to the caller,
    [resume] is the rest, run once the caller has finished.  A rejected
    [await] ends it with a rejection that no one handles. *)
Record Suspended (B : Backend) : Type := mkSuspended {
  issued : list Ev;
  resume : dbstate B -> list Ev * dbstate B
}.
Arguments mkSuspended {B} _ _.
Arguments issued {B} _.
Arguments resume {B} _ _.

Definition handleInsertRequest (B : Backend) (connection : handle B)
    (type cluster_id temperature humidity : JSVal) : Suspended B :=
  if strict_eq_zero type then
    mkSuspended
      [Query selectQuery [cluster_id]]
      (fun db =>
         match query B connection selectQuery [cluster_id] db with
         | (inl err, db1) => ([Unhandled err], db1)
         | (inr rows, db1) =>
             if bool_decide (length rows = 0) then
               match query B connection insertClusterQuery [cluster_id] db1 with
               | (inl err, db2) =>
                   ([Query insertClusterQuery [cluster_id]; Unhandled err], db2)
               | (inr _, db2) =>
                   ([Query insertClusterQuery [cluster_id];
                     postMessageToParent "success" None], db2)
               end
             else ([postMessageToParent "success" None], db1)
         end)
  else
    mkSuspended
      [Query insertSensorQuery [cluster_id; temperature; humidity]]
      (fun db =>
         match query B connection insertSensorQuery
                     [cluster_id; temperature; humidity] db with
         | (inl err, db1) => ([Unhandled err], db1)
         | (inr _, db1) => ([postMessageToParent "success" None], db1)
         end).

(** The message of the [TypeError] that destructuring [undefined] or
    [null] raises. *)
Definition destructureError (v : JSVal) : string :=
  match v with
  | JNull => "Cannot destructure property 'cluster_id' of 'data' as it is null."
  | _ => "Cannot destructure property 'cluster_id' of 'data' as it is undefined."
  end.

(** The handler of [parentPort.on('message', ...)]. *)
Definition onMessage (B : Backend) (message : Job) (db : dbstate B) :
    list Ev * dbstate B :=
  match getConnection B db with
  | (inl err, db1) => ([postMessageToParent "error" (Some err)], db1)
  | (inr connection, db1) =>
      match data message with
      | JUndefined | JNull =>
          ([Acquired; postMessageToParent "error" (Some (destructureError (data message)))],
           db1)
      | d =>
          let cluster_id := get_prop d "cluster_id" in
          let temperature := get_prop d "temperature" in
          let humidity := get_prop d "humidity" in
          if strict_eq_str (request message) "insert" then
            let pending :=
              handleInsertRequest B connection (type message)
                                  cluster_id temperature humidity in
            let db2 := release B connection db1 in
            let '(later, db3) := resume pending db2 in
            (Acquired :: issued pending ++ Released :: later, db3)
          else ([Acquired; Released], release B connection db1)
      end
  end.

Definition isPosted (e : Ev) : bool :=
  match e with Posted _ => true | _ => false end.
Definition isReleased (e : Ev) : bool :=
  match e with Released => true | _ => false end.
Definition isAcquired (e : Ev) : bool :=
  match e with Acquired => true | _ => false end.

(** A call [connection.query(insertQuery, [id])] on [cluster_records]. *)
Definition isInsertAttempt (id : string) (e : Ev) : bool :=
  match e with
  | Query sql [JStr s] => bool_decide (sql = insertClusterQuery) && bool_decide (s = id)
  | _ => false
  end.

Definition count (f : Ev -> bool) (evs : list Ev) : nat := length (List.filter f evs).

(** *** A backend that keeps its tables in memory

    It hands out handles without limit and counts those not yet given
    back; statements are answered from the two tables. *)
Record Store : Type := mkStore {
  cluster_records : list string;
  sensor_records : list (string * JSVal * JSVal);
  checkedOut : nat
}.

Definition memQuery (_ : unit) (sql : string) (args : list JSVal) (st : Store) :
    (string + list Row) * Store :=
  if bool_decide (sql = selectQuery) then
    match args with
    | [JStr id] =>
        (inr ((fun r => [("cluster_id", JStr r)])
                <$> filter (fun r => r = id) (cluster_records st)), st)
    | _ => (inl "ER_WRONG_ARGUMENTS", st)
    end
  else if bool_decide (sql = insertClusterQuery) then
    match args with
    | [JStr id] =>
        (inr [], mkStore (cluster_records st ++ [id]) (sensor_records st) (checkedOut st))
    | _ => (inl "ER_WRONG_ARGUMENTS", st)
    end
  else if bool_decide (sql = insertSensorQuery) then
    match args with
    | [JStr id; t; h] =>
        (inr [], mkStore (cluster_records st) (sensor_records st ++ [(id, t, h)])
                         (checkedOut st))
    | _ => (inl "ER_WRONG_ARGUMENTS", st)
    end
  else (inl "ER_PARSE_ERROR", st).

Definition memdb : Backend :=
  mkBackend Store unit
    (fun st => (inr tt, mkStore (cluster_records st) (sensor_records st) (S (checkedOut st))))
    memQuery
    (fun _ st => mkStore (cluster_records st) (sensor_records st) (pred (checkedOut st))).

(** The same backend with every statement failing. *)
Definition lostdb : Backend :=
  mkBackend Store unit
    (getConnection memdb)
    (fun _ _ _ st => (inl "connection lost", st))
    (release memdb).

Definition emptyStore : Store := mkStore [] [] 0.

(** What the idempotence of the kind-0 insert needs of a backend:
    [present id db] says that [cluster_records] holds [id]. *)
Record ClusterLaws (B : Backend) (present : string -> dbstate B -> Prop) : Prop := {
  law_acquire : forall db,
    (exists h, (getConnection B db).1 = inr h) /\
    (forall id, present id (getConnection B db).2 <-> present id db);
  law_release : forall h db id, present id (release B h db) <-> present id db;
  law_select : forall h db id,
    (exists rows, (query B h selectQuery [JStr id] db).1 = inr rows /\
                  (rows = [] <-> ~ present id db)) /\
    (forall id', present id' (query B h selectQuery [JStr id] db).2 <-> present id' db);
  law_insert : forall h db id,
    (exists r, (query B h insertClusterQuery [JStr id] db).1 = inr r) /\
    present id (query B h insertClusterQuery [JStr id] db).2
}.

(** The courses one run of the handler can take for a job, by what
    the backend answers. *)
Inductive course (m : Job) : list Ev -> Prop :=
  | course_no_handle err :
      course m [Posted (mkCompletion "error" (Some err))]
  | course_no_data :
      (data m = JUndefined \/ data m = JNull) ->
      course m [Acquired;
                Posted (mkCompletion "error" (Some (destructureError (data m))))]
  | course_not_insert :
      strict_eq_str (request m) "insert" = false ->
      course m [Acquired; Released]
  | course_select_fails err :
      strict_eq_str (request m) "insert" = true -> strict_eq_zero (type m) = true ->
      course m [Acquired; Query selectQuery [get_prop (data m) "cluster_id"];
                Released; Unhandled err]
  | course_known :
      strict_eq_str (request m) "insert" = true -> strict_eq_zero (type m) = true ->
      course m [Acquired; Query selectQuery [get_prop (data m) "cluster_id"];
                Released; Posted (mkCompletion "success" None)]
  | course_new_fails err :
      strict_eq_str (request m) "insert" = true -> strict_eq_zero (type m) = true ->
      course m [Acquired; Query selectQuery [get_prop (data m) "cluster_id"];
                Released;
                Query insertClusterQuery [get_prop (data m) "cluster_id"];
                Unhandled err]
  | course_new :
      strict_eq_str (request m) "insert" = true -> strict_eq_zero (type m) = true ->
      course m [Acquired; Query selectQuery [get_prop (data m) "cluster_id"];
                Released;
                Query insertClusterQuery [get_prop (data m) "cluster_id"];
                Posted (mkCompletion "success" None)]
  | course_sensor_fails err :
      strict_eq_str (request m) "insert" = true -> strict_eq_zero (type m) = false ->
      course m [Acquired;
                Query insertSensorQuery
                  [get_prop (data m) "cluster_id"; get_prop (data m) "temperature";
                   get_prop (data m) "humidity"];
                Released; Unhandled err]
  | course_sensor :
      strict_eq_str (request m) "insert" = true -> strict_eq_zero (type m) = false ->
      course m [Acquired;
                Query insertSensorQuery
                  [get_prop (data m) "cluster_id"; get_prop (data m) "temperature";
                   get_prop (data m) "humidity"];
                Released; Posted (mkCompletion "success" None)].

(** A backend whose pool has no connection to give. *)
Definition downdb : Backend :=
  mkBackend Store unit
    (fun st => (inl "pool is closed", st))
    memQuery
    (release memdb).

End DbWorker.

(** * Properties of the dispatcher *)

Module DispatcherFacts.
Import Dispatcher.

Lemma alter_as_insert {A} (f : A -> A) (l : list A) i x :
  l !! i = Some x -> alter f i l = <[i := f x]> l.
Proof.
  revert i. induction l as [|y l IH]; intros [|i] H; simplify_eq/=; auto.
  f_equal. by apply IH.
Qed.

Lemma busy_filter_insert (l : list Worker) i w w' :
  l !! i = Some w ->
  length (filter (fun w => busy w = true) (<[i := w']> l)) + b2n (busy w)
  = length (filter (fun w => busy w = true) l) + b2n (busy w').
Proof.
  revert i. induction l as [|y l IH]; intros [|i] H; simplify_eq/=.
  - rewrite !filter_cons. destruct (busy w), (busy w'); simpl; repeat case_decide; simpl; try done; lia.
  - specialize (IH _ H). rewrite !filter_cons. case_decide; simpl; lia.
Qed.

Lemma init_Inv n : Inv (createWorkerPoolOf n).
Proof.
  split; [|done]. simpl. apply Forall_replicate. right. done.
Qed.

Lemma init_busyCount n : busyCount (createWorkerPoolOf n) = 0.
Proof.
  unfold busyCount. simpl. induction n as [|n IH]; [done|].
  simpl. rewrite filter_cons_False; [done|]. simpl. congruence.
Qed.

Lemma not_idle_busy w : ~ idle w <-> busy w = true.
Proof. unfold idle. destruct (busy w); naive_solver. Qed.

Lemma assign_idle j p i w :
  finAvailableWorker p = Some (i, w) ->
  workerPool p !! i = Some w /\ busy w = false /\
  (forall k w', k < i -> workerPool p !! k = Some w' -> busy w' = true) /\
  assignWorkToWorker j p =
    mkPool (<[i := mkWorker true (inbox w ++ [j])]> (workerPool p))
           (requestQueue p) (posted p ++ [(i, j)]).
Proof.
  intros H. unfold assignWorkToWorker. rewrite H.
  apply list_find_Some in H as (Hi & Hw & Hlt).
  split_and!; try done.
  intros k w' Hk Hw'. apply not_idle_busy. eauto.
Qed.

Lemma assign_none j p :
  finAvailableWorker p = None ->
  Forall (fun w => busy w = true) (workerPool p) /\
  assignWorkToWorker j p = mkPool (workerPool p) (requestQueue p ++ [j]) (posted p).
Proof.
  intros H. unfold assignWorkToWorker. rewrite H. split; [|done].
  apply list_find_None in H. eapply Forall_impl; [exact H|].
  intros w. apply not_idle_busy.
Qed.

Lemma find_only_idle (l : list Worker) i w w' :
  l !! i = Some w -> Forall (fun w => busy w = true) l -> busy w' = false ->
  list_find idle (<[i := w']> l) = Some (i, w').
Proof.
  intros Hi Hall Hw'. apply list_find_Some. split_and!.
  - apply list_lookup_insert_eq. by eapply lookup_lt_Some.
  - done.
  - intros k y Hk Hlt. rewrite list_lookup_insert_ne in Hk by lia.
    apply not_idle_busy. eapply Forall_lookup_1 in Hall; eauto.
Qed.

Lemma complete_shape p i m :
  Inv p -> enabled (Complete i m) p = true ->
  exists w j0, workerPool p !! i = Some w /\ busy w = true /\ inbox w = [j0] /\
  step (Complete i m) p =
    match requestQueue p with
    | [] => mkPool (<[i := mkWorker false []]> (workerPool p)) [] (posted p)
    | j :: rest =>
        mkPool (<[i := mkWorker true [j]]> (workerPool p)) rest (posted p ++ [(i, j)])
    end.
Proof.
  intros [Hok Hq] Hen. simpl in Hen.
  destruct (workerPool p !! i) as [w|] eqn:Hi; [|done].
  apply negb_true_iff, bool_decide_eq_false in Hen.
  pose proof (Forall_lookup_1 _ _ _ _ Hok Hi) as [[Hb [j0 Hj0]]|[_ ?]]; [|done].
  exists w, j0. split_and!; try done.
  assert (Hlt : i < length (workerPool p)) by by eapply lookup_lt_Some.
  unfold step, handleWorkerMessages, workerAnswers. simpl.
  rewrite (alter_as_insert _ _ _ _ Hi). simpl.
  erewrite alter_as_insert by (by apply list_lookup_insert_eq). simpl.
  rewrite list_insert_insert_eq, Hj0. simpl.
  destruct (requestQueue p) as [|j rest] eqn:Hqueue; [done|].
  unfold assignWorkToWorker, finAvailableWorker. simpl.
  rewrite (find_only_idle _ i w (mkWorker false [])); [|done|by apply Hq|done].
  simpl. by rewrite list_insert_insert_eq.
Qed.

Lemma Forall_busy_insert (l : list Worker) i w :
  Forall (fun w => busy w = true) l -> busy w = true ->
  Forall (fun w => busy w = true) (<[i := w]> l).
Proof. intros. by apply Forall_insert. Qed.

(** One event: the invariant is kept, the occupancy moves by one, and
    the jobs posted so far followed by the queue are the jobs submitted
    so far, in submission order. *)
Lemma step_Inv e p :
  Inv p -> enabled e p = true ->
  Inv (step e p) /\
  busyCount (step e p) + length (requestQueue (step e p)) + completed [e]
    = busyCount p + length (requestQueue p) + length (submitted [e]) /\
  (posted (step e p)).*2 ++ requestQueue (step e p)
    = (posted p).*2 ++ requestQueue p ++ submitted [e].
Proof.
  intros HI Hen. destruct e as [j|i m].
  - destruct HI as [Hok Hq]. simpl.
    destruct (finAvailableWorker p) as [[i w]|] eqn:Hf.
    + destruct (assign_idle j p i w Hf) as (Hi & Hb & Hlt & ->).
      assert (Hqe : requestQueue p = []).
      { destruct (requestQueue p) eqn:E; [done|]. exfalso.
        assert (Hall : Forall (fun w => busy w = true) (workerPool p)) by by apply Hq.
        eapply Forall_lookup_1 in Hall; eauto. congruence. }
      assert (Hin : inbox w = []).
      { pose proof (Forall_lookup_1 _ _ _ _ Hok Hi) as [[? _]|[_ ?]]; [congruence|done]. }
      unfold Inv, busyCount, completed, submitted. simpl. rewrite Hqe, Hin. simpl.
      split_and!.
      * apply Forall_insert; [done|]. left. eauto.
      * done.
      * pose proof (busy_filter_insert _ _ _ (mkWorker true [j]) Hi) as Hc.
        rewrite Hb in Hc. simpl in Hc. lia.
      * rewrite fmap_app. simpl. by rewrite !app_nil_r.
    + destruct (assign_none j p Hf) as (Hall & ->).
      unfold Inv, busyCount, completed, submitted. simpl.
      split_and!; try done.
      * rewrite length_app. simpl. lia.
  - destruct (complete_shape p i m HI Hen) as (w & j0 & Hi & Hb & Hj0 & ->).
    destruct HI as [Hok Hq].
    unfold Inv, busyCount, completed, submitted. simpl.
    destruct (requestQueue p) as [|j rest] eqn:Hqueue; simpl.
    + split_and!.
      * apply Forall_insert; [done|]. right. done.
      * done.
      * pose proof (busy_filter_insert _ _ _ (mkWorker false []) Hi) as Hc.
        rewrite Hb in Hc. simpl in Hc. lia.
      * by rewrite !app_nil_r.
    + split_and!.
      * apply Forall_insert; [done|]. left. eauto.
      * intros _. apply Forall_busy_insert; [by apply Hq|done].
      * pose proof (busy_filter_insert _ _ _ (mkWorker true [j]) Hi) as Hc.
        rewrite Hb in Hc. simpl in Hc. lia.
      * rewrite fmap_app, app_nil_r. simpl. by rewrite <- app_assoc.
Qed.

Lemma submitted_cons e tr : submitted (e :: tr) = submitted [e] ++ submitted tr.
Proof. unfold submitted. simpl. by destruct e. Qed.

Lemma completed_cons e tr : completed (e :: tr) = completed [e] + completed tr.
Proof. unfold completed. simpl. by destruct e. Qed.

Lemma run_Inv tr : forall p p',
  Inv p -> run tr p = Some p' ->
  Inv p' /\
  busyCount p' + length (requestQueue p') + completed tr
    = busyCount p + length (requestQueue p) + length (submitted tr) /\
  (posted p').*2 ++ requestQueue p' = (posted p).*2 ++ requestQueue p ++ submitted tr.
Proof.
  induction tr as [|e tr IH]; intros p p' HI Hrun; simpl in Hrun.
  - simplify_eq. unfold completed, submitted. simpl.
    split_and!; [done|lia|by rewrite app_nil_r].
  - destruct (enabled e p) eqn:Hen; [|done].
    destruct (step_Inv e p HI Hen) as (HI1 & Hc1 & Hf1).
    destruct (IH _ _ HI1 Hrun) as (HI2 & Hc2 & Hf2).
    rewrite submitted_cons, completed_cons, length_app.
    split_and!; [done|lia|].
    rewrite Hf2, (assoc_L (++)), Hf1. by rewrite <- !(assoc_L (++)).
Qed.

Example submit_to_first_idle :
  assignWorkToWorker jobB halfPool
  = mkPool [mkWorker true [jobA]; mkWorker true [jobB]; mkWorker false []] []
           [(0, jobA); (1, jobB)].
Proof. reflexivity. Qed.

Example submit_when_all_busy :
  assignWorkToWorker jobB fullPool
  = mkPool (workerPool fullPool) [jobB; jobA; jobB] (posted fullPool).
Proof. reflexivity. Qed.

(** C4.  In every state reached from the initial pool by submit and
    completion events, the number of busy workers plus the length of the
    request queue is the number of jobs submitted minus the number of
    jobs completed, and a worker's busy flag is set exactly when it
    holds a job it has not answered. *)
Theorem occupancy_invariant n tr p :
  run tr (createWorkerPoolOf n) = Some p ->
  completed tr <= length (submitted tr) /\
  busyCount p + length (requestQueue p) = length (submitted tr) - completed tr /\
  (forall i w, workerPool p !! i = Some w -> (busy w = true <-> inbox w <> [])).
Proof.
  intros Hrun.
  destruct (run_Inv tr _ _ (init_Inv n) Hrun) as ([Hok _] & Hc & _).
  rewrite init_busyCount in Hc. simpl in Hc.
  split_and!; [lia|lia|].
  intros i w Hi.
  pose proof (Forall_lookup_1 _ _ _ _ Hok Hi) as [[Hb [j Hj]]|[Hb Hj]];
    rewrite Hb, Hj; split; congruence.
Qed.

Lemma occupancy_invariant_witness :
  run sampleRun createWorkerPool
    = Some (mkPool [mkWorker true [jobA]; mkWorker true [jobB]; mkWorker true [jobA]]
                   [] [(0, jobA); (1, jobB); (2, jobA); (1, jobB)]) /\
  completed sampleRun <= length (submitted sampleRun) /\
  3 + 0 = length (submitted sampleRun) - completed sampleRun.
Proof.
  split; [reflexivity|].
  pose proof (occupancy_invariant workerPoolSize sampleRun _ eq_refl) as (H1 & H2 & _).
  split; [exact H1|exact H2].
Defined.

(** C5.  A submission always returns a new pool state.  If some worker
    is idle, the job goes to the first idle worker in creation order,
    which becomes busy, and nothing else changes; if no worker is idle,
    the job is appended to the tail of the request queue and nothing
    else changes. *)
Theorem submit_first_idle_or_enqueue j p :
  ((exists k w, workerPool p !! k = Some w /\ busy w = false) ->
   exists i w,
     workerPool p !! i = Some w /\ busy w = false /\
     (forall k w', k < i -> workerPool p !! k = Some w' -> busy w' = true) /\
     assignWorkToWorker j p =
       mkPool (<[i := mkWorker true (inbox w ++ [j])]> (workerPool p))
              (requestQueue p) (posted p ++ [(i, j)])) /\
  ((forall k w, workerPool p !! k = Some w -> busy w = true) ->
   assignWorkToWorker j p = mkPool (workerPool p) (requestQueue p ++ [j]) (posted p)).
Proof.
  split.
  - intros (k & w & Hk & Hb).
    destruct (finAvailableWorker p) as [[i w']|] eqn:Hf.
    + exists i, w'. by apply assign_idle.
    + exfalso. apply assign_none with (j := j) in Hf as [Hall _].
      eapply Forall_lookup_1 in Hall; eauto. congruence.
  - intros Hall.
    destruct (finAvailableWorker p) as [[i w]|] eqn:Hf.
    + apply assign_idle with (j := j) in Hf as (Hi & Hb & _).
      apply Hall in Hi. congruence.
    + by apply assign_none.
Qed.

(** C6.  Whatever the completion signal of worker [i] says, the handler
    marks the worker idle, and when the queue is not empty it pops the
    head job and hands it to that same worker, busy again, in the same
    step; the other workers are untouched, nothing is put back into the
    queue, and the jobs posted so far followed by the queue are the
    submitted jobs in submission order. *)
Theorem completion_reassigns_head n tr p i m :
  run tr (createWorkerPoolOf n) = Some p ->
  enabled (Complete i m) p = true ->
  (forall m', step (Complete i m') p = step (Complete i m) p) /\
  (forall k, k <> i ->
     workerPool (step (Complete i m) p) !! k = workerPool p !! k) /\
  match requestQueue p with
  | [] =>
      workerPool (step (Complete i m) p) !! i = Some (mkWorker false []) /\
      requestQueue (step (Complete i m) p) = [] /\
      posted (step (Complete i m) p) = posted p
  | j :: rest =>
      workerPool (step (Complete i m) p) !! i = Some (mkWorker true [j]) /\
      requestQueue (step (Complete i m) p) = rest /\
      posted (step (Complete i m) p) = posted p ++ [(i, j)]
  end /\
  (posted (step (Complete i m) p)).*2 ++ requestQueue (step (Complete i m) p)
    = submitted tr.
Proof.
  intros Hrun Hen.
  destruct (run_Inv tr _ _ (init_Inv n) Hrun) as (HI & _ & Hfifo).
  simpl in Hfifo.
  destruct (step_Inv (Complete i m) p HI Hen) as (_ & _ & Hf).
  destruct (complete_shape p i m HI Hen) as (w & j0 & Hi & Hb & Hj0 & Hs).
  assert (Hlt : i < length (workerPool p)) by by eapply lookup_lt_Some.
  split_and!.
  - intros m'. done.
  - intros k Hk. rewrite Hs. destruct (requestQueue p); simpl;
      by rewrite list_lookup_insert_ne.
  - rewrite Hs. destruct (requestQueue p); simpl;
      by rewrite list_lookup_insert_eq.
  - rewrite Hf. unfold submitted at 1. simpl. by rewrite app_nil_r.
Qed.

Lemma completion_reassigns_head_witness :
  run [Submit jobA; Submit jobB; Submit jobA; Submit jobB; Submit jobA]
      createWorkerPool = Some fullPool /\
  enabled (Complete 1 lost) fullPool = true /\
  step (Complete 1 fine) fullPool = step (Complete 1 lost) fullPool /\
  workerPool (step (Complete 1 lost) fullPool) !! 1 = Some (mkWorker true [jobB]) /\
  requestQueue (step (Complete 1 lost) fullPool) = [jobA].
Proof.
  split; [reflexivity|]. split; [reflexivity|].
  pose proof (completion_reassigns_head workerPoolSize
                [Submit jobA; Submit jobB; Submit jobA; Submit jobB; Submit jobA]
                fullPool 1 lost eq_refl eq_refl) as (H1 & _ & H3 & _).
  split; [exact (H1 fine)|].
  simpl in H3. destruct H3 as (H3 & H4 & _). split; [exact H3|exact H4].
Defined.

End DispatcherFacts.

(** * Properties of the channel registry and the connection supervisor *)

Module ServerFacts.
Import Server.

Lemma assoc_get_alter {A} (f : A -> A) k (l : list (string * A)) :
  assoc_get k (assoc_alter f k l) = f <$> assoc_get k l.
Proof.
  induction l as [|[k' v] l IH]; [done|]. simpl.
  case_bool_decide; simpl; case_bool_decide; try done.
Qed.

Lemma assoc_get_alter_ne {A} (f : A -> A) k k' (l : list (string * A)) :
  k' <> k -> assoc_get k' (assoc_alter f k l) = assoc_get k' l.
Proof.
  intros Hne. induction l as [|[k0 v] l IH]; [done|]. simpl.
  case_bool_decide; simpl; case_bool_decide; try done; congruence.
Qed.

(** The effect of one frame on a registered topic. *)
Lemma onMessage_topic c v name subs s :
  get_prop v "channel" = JStr name ->
  assoc_get name (channels s) = Some subs ->
  clients (onMessage c (Some v) s) = clients s /\
  channels (onMessage c (Some v) s) =
    (if bool_decide (c ∈ subs) then channels s
     else assoc_alter (fun subs => subs ++ [c]) name (channels s)) /\
  log (onMessage c (Some v) s) =
    (if bool_decide (c ∈ subs) then log s
     else log s ++ [Send c ("You are connected to the channel " +:+ name)]).
Proof.
  intros Hch Hget. destruct v; try discriminate Hch.
  unfold onMessage. rewrite Hch, Hget.
  repeat case_bool_decide; done.
Qed.

(** C9.  On a topic of the registry, a frame from a connection that is
    already a subscriber leaves the registry as it is and sends nothing;
    a frame from a connection that is not appends the connection once to
    that topic's subscribers, leaves the other topics alone and sends
    the one acknowledgment ["You are connected to the channel " + name];
    a second frame on the topic then changes nothing, so that the
    connection is listed once and was acknowledged once. *)
Theorem subscribe_idempotent c v name subs s :
  get_prop v "channel" = JStr name ->
  assoc_get name (channels s) = Some subs ->
  (c ∈ subs ->
     channels (onMessage c (Some v) s) = channels s /\
     log (onMessage c (Some v) s) = log s) /\
  (c ∉ subs ->
     assoc_get name (channels (onMessage c (Some v) s)) = Some (subs ++ [c]) /\
     (forall other, other <> name ->
        assoc_get other (channels (onMessage c (Some v) s))
        = assoc_get other (channels s)) /\
     log (onMessage c (Some v) s)
       = log s ++ [Send c ("You are connected to the channel " +:+ name)] /\
     forall v2, get_prop v2 "channel" = JStr name ->
       channels (onMessage c (Some v2) (onMessage c (Some v) s))
         = channels (onMessage c (Some v) s) /\
       length (filter (fun x => x = c) (subs ++ [c])) = 1 /\
       log (onMessage c (Some v2) (onMessage c (Some v) s))
         = log s ++ [Send c ("You are connected to the channel " +:+ name)]).
Proof.
  intros Hch Hget.
  destruct (onMessage_topic c v name subs s Hch Hget) as (_ & Hc & Hl).
  split.
  - intros Hin. rewrite Hc, Hl. by rewrite !bool_decide_eq_true_2.
  - intros Hnin. rewrite Hc, Hl. rewrite !bool_decide_eq_false_2 by done.
    assert (Hget' : assoc_get name (channels (onMessage c (Some v) s)) = Some (subs ++ [c])).
    { rewrite Hc, bool_decide_eq_false_2 by done.
      by rewrite assoc_get_alter, Hget. }
    split_and!.
    + by rewrite assoc_get_alter, Hget.
    + intros other Hne. by apply assoc_get_alter_ne.
    + done.
    + intros v2 Hch2.
      destruct (onMessage_topic c v2 name _ _ Hch2 Hget') as (_ & Hc2 & Hl2).
      rewrite Hc2, Hl2, Hc, Hl.
      rewrite (bool_decide_eq_true_2 (c ∈ subs ++ [c])) by set_solver.
      rewrite !bool_decide_eq_false_2 by done.
      split_and!; try done.
      rewrite filter_app, length_app.
      replace (filter (fun x => x = c) subs) with (@nil Conn).
      * rewrite filter_cons_True by done. done.
      * symmetry. clear -Hnin. induction subs as [|x subs IH]; [done|].
        rewrite filter_cons_False by set_solver. apply IH. set_solver.
Qed.

Lemma subscribe_idempotent_witness :
  get_prop (frameOn "frontend") "channel" = JStr "frontend" /\
  assoc_get "frontend" (channels init) = Some [] /\
  (7 ∉ (@nil Conn)) /\
  assoc_get "frontend"
    (channels (onMessage 7 (Some (frameOn "frontend"))
                 (onMessage 7 (Some (frameOn "frontend")) init))) = Some [7] /\
  log (onMessage 7 (Some (frameOn "frontend"))
         (onMessage 7 (Some (frameOn "frontend")) init))
    = [Send 7 "You are connected to the channel frontend"].
Proof.
  assert (H7 : 7 ∉ @nil Conn) by apply not_elem_of_nil.
  split; [reflexivity|]. split; [reflexivity|]. split; [exact H7|].
  pose proof (subscribe_idempotent 7 (frameOn "frontend") "frontend" [] init
                eq_refl eq_refl) as [_ H].
  destruct (H H7) as (H1 & _ & _ & H4).
  destruct (H4 (frameOn "frontend") eq_refl) as (H5 & _ & H6).
  split; [|exact H6].
  rewrite H5. exact H1.
Defined.

Lemma cleanups_app c l1 l2 : cleanups c (l1 ++ l2) = cleanups c l1 + cleanups c l2.
Proof. unfold cleanups. by rewrite filter_app, length_app. Qed.

Lemma cleanups_one c a :
  cleanups c [a] = if bool_decide (a = Cleanup c) then 1 else 0.
Proof.
  unfold cleanups. rewrite filter_cons. simpl.
  case_decide; case_bool_decide; done.
Qed.

Lemma onMessage_clients_cleanups c parsed s :
  clients (onMessage c parsed s) = clients s /\
  forall c', cleanups c' (log (onMessage c parsed s)) = cleanups c' (log s).
Proof.
  unfold onMessage.
  destruct parsed as [v|]; [|done].
  destruct v; try done.
  destruct (get_prop _ "channel"); try done.
  destruct (assoc_get _ _); [|done].
  repeat case_bool_decide; simpl; split; try done;
    intros c'; rewrite cleanups_app, cleanups_one;
    rewrite bool_decide_eq_false_2 by done; lia.
Qed.

Lemma step_accounted e s :
  accounted s -> enabled e s = true -> accounted (step e s).
Proof.
  intros Hacc Hen c. specialize (Hacc c).
  destruct e as [c0|c0|c0|c0 parsed|c0|i m]; simpl in Hen |- *.
  - apply bool_decide_eq_true in Hen.
    destruct (decide (c = c0)) as [->|Hne].
    + rewrite lookup_insert_eq. rewrite Hen in Hacc. by rewrite Hacc.
    + by rewrite lookup_insert_ne.
  - destruct (clients s !! c0) as [cl|] eqn:Hcl; [|done].
    unfold onHeartbeat. destruct (isAlive cl); simpl.
    + rewrite cleanups_app, cleanups_one, bool_decide_eq_false_2 by done.
      destruct (decide (c = c0)) as [->|Hne].
      * rewrite lookup_insert_eq. rewrite Hcl in Hacc. simpl. lia.
      * rewrite lookup_insert_ne by done. lia.
    + rewrite !cleanups_app, cleanups_one.
      replace (cleanups c [ClearInterval c0; Terminate c0]) with 0
        by (unfold cleanups; by rewrite !filter_cons_False).
      destruct (decide (c = c0)) as [->|Hne].
      * rewrite lookup_insert_eq, bool_decide_eq_true_2 by done.
        rewrite Hcl in Hacc. rewrite Hen in Hacc. simpl in *. lia.
      * rewrite lookup_insert_ne by done.
        rewrite bool_decide_eq_false_2 by congruence. lia.
  - destruct (clients s !! c0) as [cl|] eqn:Hcl; [|done]. simpl.
    destruct (decide (c = c0)) as [->|Hne].
    + rewrite lookup_insert_eq. rewrite Hcl in Hacc. done.
    + by rewrite lookup_insert_ne.
  - destruct (onMessage_clients_cleanups c0 parsed s) as [-> ->]. done.
  - destruct (clients s !! c0) as [cl|] eqn:Hcl; [|done]. simpl.
    rewrite cleanups_app, cleanups_one.
    destruct (decide (c = c0)) as [->|Hne].
    + rewrite lookup_insert_eq, bool_decide_eq_true_2 by done.
      rewrite Hcl in Hacc. apply negb_true_iff in Hen. rewrite Hen in Hacc.
      simpl in *. lia.
    + rewrite lookup_insert_ne by done.
      rewrite bool_decide_eq_false_2 by congruence. lia.
  - done.
Qed.

Lemma run_accounted tr : forall s s',
  accounted s -> run tr s = Some s' -> accounted s'.
Proof.
  induction tr as [|e tr IH]; intros s s' Hacc Hrun; simpl in Hrun.
  - by simplify_eq.
  - destruct (enabled e s) eqn:Hen; [|done].
    eapply IH; [|exact Hrun]. by apply step_accounted.
Qed.

Lemma init_accounted : accounted init.
Proof. intros c. simpl. by rewrite lookup_empty. Qed.

(** C8 as stated fails: the peer closes after a probe it has
    not answered; the close handler cleans up, the interval is still
    armed, and the next period cleans up again. *)
Lemma cleanup_once_counterexample :
  ~ (forall tr s c, run tr init = Some s -> cleanups c (log s) <= 1).
Proof.
  intros H.
  specialize (H [Connection 0; Tick 0; Close 0; Tick 0] _ 0 eq_refl).
  vm_compute in H. lia.
Qed.

(** C8, amended.  In every execution the cleanup is invoked for a
    connection once by the close handler when the close event of that
    connection is delivered, and once by the heartbeat at the period
    that finds the liveness flag unset and clears the interval; so never
    more than twice. *)
Theorem cleanup_at_most_twice tr s c :
  run tr init = Some s ->
  cleanups c (log s) =
    match clients s !! c with
    | Some cl => Dispatcher.b2n (closed cl) + Dispatcher.b2n (negb (heartbeat cl))
    | None => 0
    end /\
  cleanups c (log s) <= 2.
Proof.
  intros Hrun.
  pose proof (run_accounted tr _ _ init_accounted Hrun c) as H.
  split; [exact H|]. rewrite H.
  destruct (clients s !! c) as [cl|]; [|lia].
  destruct (closed cl), (heartbeat cl); simpl; lia.
Qed.

Lemma cleanup_at_most_twice_witness :
  run [Connection 0; Tick 0; Tick 0; Close 0] init
    = Some (mkState Dispatcher.createWorkerPool
              [("backend", []); ("frontend", [])]
              {[ 0 := mkClient false false true true ]}
              [Ping 0; ClearInterval 0; Terminate 0; Cleanup 0; Cleanup 0]) /\
  cleanups 0 [Ping 0; ClearInterval 0; Terminate 0; Cleanup 0; Cleanup 0] <= 2.
Proof.
  split; [reflexivity|].
  exact (proj2 (cleanup_at_most_twice
                  [Connection 0; Tick 0; Tick 0; Close 0] _ 0 eq_refl)).
Defined.

(** ** Silence ends the connection within two periods *)

Ltac log_untouched := exists []; by rewrite app_nil_r.

Lemma step_log_grows e s : exists l, log (step e s) = log s ++ l.
Proof.
  destruct e as [c0|c0|c0|c0 parsed|c0|i m]; simpl.
  - log_untouched.
  - destruct (clients s !! c0) as [cl|]; [|log_untouched].
    unfold onHeartbeat. destruct (isAlive cl); simpl.
    + by eexists.
    + rewrite <- (assoc_L (++)). by eexists.
  - destruct (clients s !! c0) as [cl|]; log_untouched.
  - unfold onMessage.
    destruct parsed as [v|]; [|log_untouched].
    destruct v; try log_untouched.
    destruct (get_prop _ "channel"); try log_untouched.
    destruct (assoc_get _ _); [|log_untouched].
    repeat case_bool_decide; simpl; first [by eexists | log_untouched].
  - destruct (clients s !! c0) as [cl|]; [|log_untouched].
    simpl. by eexists.
  - log_untouched.
Qed.

Lemma run_cleanups_mono tr : forall s s' c,
  run tr s = Some s' -> cleanups c (log s) <= cleanups c (log s').
Proof.
  induction tr as [|e tr IH]; intros s s' c Hrun; simpl in Hrun.
  - by simplify_eq.
  - destruct (enabled e s); [|done].
    specialize (IH _ _ c Hrun).
    destruct (step_log_grows e s) as [l Hl].
    rewrite Hl, cleanups_app in IH. lia.
Qed.

(** An event other than the connection's own tick or pong leaves its
    flag, its timer and its transport as they are. *)
Lemma step_client_other e s c cl :
  clients s !! c = Some cl -> enabled e s = true ->
  isTick c e = false ->
  match e with Pong c' => c' <> c | _ => True end ->
  exists cl1, clients (step e s) !! c = Some cl1 /\
    isAlive cl1 = isAlive cl /\ heartbeat cl1 = heartbeat cl /\
    terminated cl1 = terminated cl.
Proof.
  intros Hc Hen Htick Hpong.
  destruct e as [c0|c0|c0|c0 parsed|c0|i m]; simpl in *.
  - apply bool_decide_eq_true in Hen.
    exists cl. rewrite lookup_insert_ne by congruence. done.
  - apply bool_decide_eq_false in Htick.
    destruct (clients s !! c0) as [cl0|]; [|done].
    exists cl. unfold onHeartbeat. destruct (isAlive cl0); simpl;
      by rewrite lookup_insert_ne.
  - destruct (clients s !! c0) as [cl0|]; [|done].
    exists cl. simpl. by rewrite lookup_insert_ne.
  - exists cl. by rewrite (proj1 (onMessage_clients_cleanups c0 parsed s)).
  - destruct (clients s !! c0) as [cl0|] eqn:Hc0; [|done]. simpl.
    destruct (decide (c0 = c)) as [->|Hne].
    + rewrite lookup_insert_eq. simplify_eq. by eexists.
    + exists cl. by rewrite lookup_insert_ne.
  - by exists cl.
Qed.

(** Once the heartbeat has terminated a connection, its timer never
    fires again. *)
Lemma terminated_stays tr : forall s s' c cl,
  clients s !! c = Some cl -> heartbeat cl = false -> terminated cl = true ->
  run tr s = Some s' ->
  ticks c tr = 0 /\
  exists cl', clients s' !! c = Some cl' /\
    heartbeat cl' = false /\ terminated cl' = true.
Proof.
  induction tr as [|e tr IH]; intros s s' c cl Hc Hh Ht Hrun; simpl in Hrun.
  - simplify_eq. split; [done|]. by exists cl.
  - destruct (enabled e s) eqn:Hen; [|done].
    assert (Htick : isTick c e = false).
    { destruct e; try done. simpl. case_bool_decide; [|done]. subst.
      simpl in Hen. rewrite Hc in Hen. congruence. }
    assert (Hpong : match e with Pong c' => c' <> c | _ => True end).
    { destruct e; try done. intros ->. simpl in Hen. rewrite Hc, Ht in Hen. done. }
    destruct (step_client_other e s c cl Hc Hen Htick Hpong)
      as (cl1 & Hc1 & _ & Hh1 & Ht1).
    unfold ticks. simpl. rewrite Htick.
    eapply IH; eauto; congruence.
Qed.

(** A connection whose timer is armed and that answers no probe sees at
    most [periodsLeft] more periods; at the last of them the interval is
    cleared, the transport is terminated and [cleanupClient] is called. *)
Lemma silence_terminates tr : forall s s' c cl,
  clients s !! c = Some cl -> heartbeat cl = true ->
  silent c tr -> run tr s = Some s' ->
  ticks c tr <= periodsLeft cl /\
  (ticks c tr = periodsLeft cl ->
   exists cl', clients s' !! c = Some cl' /\
     heartbeat cl' = false /\ terminated cl' = true /\
     cleanups c (log s) < cleanups c (log s')).
Proof.
  induction tr as [|e tr IH]; intros s s' c cl Hc Hh Hsil Hrun; simpl in Hrun.
  - unfold ticks, periodsLeft. simpl. destruct (isAlive cl); split; (lia || done).
  - destruct (enabled e s) eqn:Hen; [|done].
    apply Forall_cons in Hsil as [Hpong Hsil].
    destruct (isTick c e) eqn:Htick.
    + destruct e as [|c0| | | |]; try done. simpl in Htick.
      apply bool_decide_eq_true in Htick. subst c0.
      unfold ticks. simpl. rewrite bool_decide_eq_true_2 by done. simpl.
      fold (ticks c tr). simpl in Hrun. rewrite Hc in Hrun.
      unfold onHeartbeat, periodsLeft in *. destruct (isAlive cl) eqn:Hal; simpl in Hrun.
      * lazymatch type of Hrun with
        | run _ ?s1 = _ =>
            assert (Hc1 : clients s1 !! c
                          = Some (mkClient false (heartbeat cl) (terminated cl) (closed cl)))
              by (simpl; by rewrite lookup_insert_eq);
            destruct (IH s1 s' c _ Hc1 Hh Hsil Hrun) as [Hle Heq]
        end.
        simpl in *. split; [lia|]. intros E.
        destruct Heq as (cl' & ? & ? & ? & Hlt); [lia|].
        exists cl'. split_and!; try done.
        rewrite cleanups_app in Hlt. lia.
      * lazymatch type of Hrun with
        | run _ ?s1 = _ =>
            assert (Hc1 : clients s1 !! c = Some (mkClient false false true (closed cl)))
              by (simpl; by rewrite lookup_insert_eq);
            destruct (terminated_stays tr s1 s' c _ Hc1 eq_refl eq_refl Hrun)
              as [H0 (cl' & ? & ? & ?)]
        end.
        split; [lia|]. intros _. exists cl'. split_and!; try done.
        pose proof (run_cleanups_mono tr _ _ c Hrun) as Hm. simpl in Hm.
        rewrite !cleanups_app, cleanups_one, bool_decide_eq_true_2 in Hm by done.
        lia.
    + destruct (step_client_other e s c cl Hc Hen Htick Hpong)
        as (cl1 & Hc1 & Ha1 & Hh1 & _).
      unfold ticks. simpl. rewrite Htick. fold (ticks c tr).
      destruct (IH _ _ c cl1 Hc1 ltac:(congruence) Hsil Hrun) as [Hle Heq].
      unfold periodsLeft in *. rewrite Ha1 in *.
      split; [done|]. intros E. destruct (Heq E) as (cl' & ? & ? & ? & Hlt).
      exists cl'. split_and!; try done.
      destruct (step_log_grows e s) as [l Hl].
      rewrite Hl, cleanups_app in Hlt. lia.
Qed.

(** C1, which the code does not meet.  A connection subscribed to
    both topics is removed from the first one only: the loop of
    [cleanupClient] leaves at the first array that holds the socket, so
    after the close handler has run the connection is still among the
    subscribers of ["frontend"]. *)
Theorem cleanup_stops_at_first_topic :
  (forall c : Conn,
     cleanupClient c [("backend", [c]); ("frontend", [c])]
     = [("backend", []); ("frontend", [c])]) /\
  exists s,
    run [Connection 0; Message 0 (Some (frameOn "backend"));
         Message 0 (Some (frameOn "frontend")); Close 0] init = Some s /\
    channels s = [("backend", []); ("frontend", [0])] /\
    subscribed 0 "frontend" s.
Proof.
  split.
  - intros c. simpl. unfold indexOf. simpl. by rewrite decide_True.
  - eexists. split; [reflexivity|]. split; [reflexivity|].
    exists [0]. split; [reflexivity|]. set_solver.
Qed.

(** C7, which the code does not meet.  A connection on both topics
    that answers no probe: at the second period the interval is cleared,
    the transport is terminated and [cleanupClient] is called, but the
    call leaves the connection among the subscribers of ["frontend"]. *)
Theorem heartbeat_cleanup_leaves_second_topic :
  exists s,
    run [Connection 0; Message 0 (Some (frameOn "backend"));
         Message 0 (Some (frameOn "frontend")); Tick 0; Tick 0] init = Some s /\
    clients s !! 0 = Some (mkClient false false true false) /\
    log s = [Send 0 "You are connected to the channel backend";
             Send 0 "You are connected to the channel frontend";
             Ping 0; ClearInterval 0; Terminate 0; Cleanup 0] /\
    channels s = [("backend", []); ("frontend", [0])] /\
    subscribed 0 "frontend" s.
Proof.
  eexists. split; [reflexivity|]. split; [reflexivity|].
  split; [reflexivity|]. split; [reflexivity|].
  exists [0]. split; [reflexivity|]. set_solver.
Qed.

(** When the library then delivers the close event of the terminated
    transport, the close handler calls [cleanupClient] a second time,
    and only that second call takes the connection out of
    ["frontend"]. *)
Example close_after_terminate :
  exists s,
    run [Connection 0; Message 0 (Some (frameOn "backend"));
         Message 0 (Some (frameOn "frontend")); Tick 0; Tick 0; Close 0] init = Some s /\
    channels s = [("backend", []); ("frontend", [])] /\
    cleanups 0 (log s) = 2.
Proof. eexists. split; [reflexivity|]. split; reflexivity. Qed.

(** A frame on ["backend"] without a [data] field becomes a job whose
    [data] is [undefined]. *)
Example frame_without_data :
  Dispatcher.posted
    (pool (onMessage 0
             (Some (JObj [("message_type", JNum 0); ("channel", JStr "backend");
                          ("request", JStr "insert")]))
             init))
  = [(0, mkJob (JNum 0) (JStr "insert") JUndefined)].
Proof. reflexivity. Qed.

(** The second period after a response lies within twice the probe
    period of it. *)
Lemma two_periods (k : nat) (t : Z) :
  (tickTime k <= t)%Z -> (tickTime (k + 2) <= t + 2 * heartbeatPeriod)%Z.
Proof. unfold tickTime, heartbeatPeriod. lia. Qed.

End ServerFacts.

(** * Properties of the database worker *)

Module DbWorkerFacts.
Import DbWorker.

(** A job is answered with at most one message, whatever the backend
    does: the dispatcher never hears twice from a worker for one job. *)
Lemma posts_at_most_one B message db :
  count isPosted (onMessage B message db).1 <= 1.
Proof.
  unfold onMessage, count.
  destruct (getConnection B db) as [[err|h] db1]; [simpl; lia|].
  destruct (data message); try (simpl; lia);
    (destruct (strict_eq_str (request message) "insert"); [|simpl; lia]);
    unfold handleInsertRequest;
    destruct (strict_eq_zero (type message)); simpl;
    repeat (match goal with
            | |- context [query ?B ?h ?q ?a ?d] => destruct (query B h q a d) as [[?|?] ?]
            | |- context [bool_decide ?P] => destruct (bool_decide P)
            end; simpl); lia.
Qed.

(** A failure to acquire the handle does reach the [catch] and is
    reported. *)
Lemma acquire_fault_reported B message db err db1 :
  getConnection B db = (inl err, db1) ->
  onMessage B message db = ([Posted (mkCompletion "error" (Some err))], db1).
Proof. intros H. unfold onMessage. by rewrite H. Qed.

(** When nothing throws, the handle is acquired once and released once,
    whatever the operation and whatever the statements answer. *)
Lemma released_without_throw B ty rq fields db h db1 :
  getConnection B db = (inr h, db1) ->
  count isAcquired (onMessage B (mkJob ty rq (JObj fields)) db).1 = 1 /\
  count isReleased (onMessage B (mkJob ty rq (JObj fields)) db).1 = 1.
Proof.
  intros H. unfold onMessage, count. rewrite H. cbn [data request].
  destruct (strict_eq_str rq "insert"); [|done].
  unfold handleInsertRequest.
  destruct (strict_eq_zero _); cbn [issued resume];
    repeat (match goal with
            | |- context [query ?B ?h ?q ?a ?d] => destruct (query B h q a d) as [[?|?] ?]
            | |- context [bool_decide ?P] => destruct (bool_decide P)
            end; cbn [fst snd]); done.
Qed.

(** C2, which the code does not meet.  A job whose operation is not
    ["insert"] is acknowledged by no message at all, and a statement
    that fails inside [handleInsertRequest] rejects a promise that
    nobody awaits instead of reaching the [catch]: in both cases the
    worker posts nothing. *)
Theorem no_completion_signal :
  (forall st ty fields,
     (onMessage memdb (mkJob ty (JStr "update") (JObj fields)) st).1
     = [Acquired; Released]) /\
  (onMessage lostdb Dispatcher.jobA emptyStore).1
  = [Acquired; Query selectQuery [JStr "c1"]; Released; Unhandled "connection lost"] /\
  count isPosted (onMessage memdb (mkJob (JNum 0) (JStr "update") (JObj [])) emptyStore).1 = 0 /\
  count isPosted (onMessage lostdb Dispatcher.jobA emptyStore).1 = 0.
Proof. split_and!; reflexivity. Qed.

(** C3, which the code does not meet.  When the job carries no
    [data], destructuring throws after the handle was acquired; the
    [catch] posts the error and the handle is never released. *)
Theorem handle_leaked_on_error :
  forall st ty rq,
    onMessage memdb (mkJob ty rq JUndefined) st
    = ([Acquired;
        Posted (mkCompletion "error"
                  (Some "Cannot destructure property 'cluster_id' of 'data' as it is undefined."))],
       mkStore (cluster_records st) (sensor_records st) (S (checkedOut st))) /\
    count isReleased (onMessage memdb (mkJob ty rq JUndefined) st).1 = 0.
Proof. intros st ty rq. split; reflexivity. Qed.

Lemma onMessage_insert B ty fields db h db1 :
  getConnection B db = (inr h, db1) ->
  onMessage B (mkJob ty (JStr "insert") (JObj fields)) db
  = (Acquired ::
       issued (handleInsertRequest B h ty
                 (get_prop (JObj fields) "cluster_id")
                 (get_prop (JObj fields) "temperature")
                 (get_prop (JObj fields) "humidity"))
       ++ Released ::
       (resume (handleInsertRequest B h ty
                  (get_prop (JObj fields) "cluster_id")
                  (get_prop (JObj fields) "temperature")
                  (get_prop (JObj fields) "humidity"))
               (release B h db1)).1,
     (resume (handleInsertRequest B h ty
                (get_prop (JObj fields) "cluster_id")
                (get_prop (JObj fields) "temperature")
                (get_prop (JObj fields) "humidity"))
             (release B h db1)).2).
Proof.
  intros H. unfold onMessage. rewrite H. cbn [data request strict_eq_str].
  rewrite bool_decide_eq_true_2 by done.
  by destruct (resume _ _).
Qed.

Section ClusterInsert.
Context (B : Backend) (present : string -> dbstate B -> Prop).
Hypothesis laws : ClusterLaws B present.

Lemma insert_when_absent id d db :
  get_prop d "cluster_id" = JStr id -> ~ present id db ->
  (onMessage B (mkJob (JNum 0) (JStr "insert") d) db).1
  = [Acquired; Query selectQuery [JStr id]; Released;
     Query insertClusterQuery [JStr id]; Posted (mkCompletion "success" None)] /\
  present id (onMessage B (mkJob (JNum 0) (JStr "insert") d) db).2.
Proof using laws.
  intros Hid Habs. destruct d; try discriminate Hid.
  destruct (law_acquire _ _ laws db) as [[h Hh] Hp].
  destruct (getConnection B db) as [r db1] eqn:Hg. simpl in Hh, Hp. subst r.
  rewrite (onMessage_insert _ _ _ _ _ _ Hg), Hid.
  unfold handleInsertRequest. cbn [strict_eq_zero]. rewrite bool_decide_eq_true_2 by done.
  cbn [issued resume].
  destruct (law_select _ _ laws h (release B h db1) id) as [(rows & Hr & Hrows) Hp2].
  destruct (query B h selectQuery [JStr id] (release B h db1)) as [r db3].
  simpl in Hr, Hp2. subst r.
  assert (Hnil : rows = []).
  { apply Hrows. rewrite (law_release _ _ laws). by rewrite Hp. }
  subst rows. simpl.
  destruct (law_insert _ _ laws h db3 id) as [[r Hr] Hp3].
  destruct (query B h insertClusterQuery [JStr id] db3) as [r' db4].
  simpl in Hr, Hp3. subst r'. done.
Qed.

Lemma no_insert_when_present id d db :
  get_prop d "cluster_id" = JStr id -> present id db ->
  (onMessage B (mkJob (JNum 0) (JStr "insert") d) db).1
  = [Acquired; Query selectQuery [JStr id]; Released;
     Posted (mkCompletion "success" None)].
Proof using laws.
  intros Hid Hpres. destruct d; try discriminate Hid.
  destruct (law_acquire _ _ laws db) as [[h Hh] Hp].
  destruct (getConnection B db) as [r db1] eqn:Hg. simpl in Hh, Hp. subst r.
  rewrite (onMessage_insert _ _ _ _ _ _ Hg), Hid.
  unfold handleInsertRequest. cbn [strict_eq_zero]. rewrite bool_decide_eq_true_2 by done.
  cbn [issued resume].
  destruct (law_select _ _ laws h (release B h db1) id) as [(rows & Hr & Hrows) Hp2].
  destruct (query B h selectQuery [JStr id] (release B h db1)) as [r db3].
  simpl in Hr, Hp2. subst r.
  destruct rows as [|row rows].
  { exfalso. apply (proj1 Hrows); [done|].
    rewrite (law_release _ _ laws). by rewrite Hp. }
  done.
Qed.

(** C10.  A kind-0 insert job for an identifier that the backend does
    not hold yet issues exactly one [INSERT] for it; the same job
    processed again issues none. *)
Theorem kind0_insert_idempotent id d db :
  get_prop d "cluster_id" = JStr id -> ~ present id db ->
  count (isInsertAttempt id)
        (onMessage B (mkJob (JNum 0) (JStr "insert") d) db).1 = 1 /\
  count (isInsertAttempt id)
        (onMessage B (mkJob (JNum 0) (JStr "insert") d)
           (onMessage B (mkJob (JNum 0) (JStr "insert") d) db).2).1 = 0.
Proof using laws.
  intros Hid Habs.
  destruct (insert_when_absent id d db Hid Habs) as [E1 Hp].
  rewrite (no_insert_when_present id d _ Hid Hp), E1.
  unfold count. simpl. rewrite !bool_decide_eq_true_2 by done. done.
Qed.

End ClusterInsert.

Lemma memdb_laws : ClusterLaws memdb (fun id st => id ∈ cluster_records st).
Proof.
  split.
  - intros db. split; [by exists tt|done].
  - done.
  - intros [] db id. split; [|done]. simpl. unfold memQuery. simpl.
    eexists. split; [reflexivity|].
    induction (cluster_records db) as [|x l IH].
    + split; [|done]. intros _. apply not_elem_of_nil.
    + rewrite filter_cons. case_decide as Hx.
      * subst x. split; [done|]. intros Hn. destruct Hn. apply list_elem_of_here.
      * rewrite IH, not_elem_of_cons. split; [by split|by intros [_ ?]].
  - intros [] db id. split; [by eexists|]. simpl. set_solver.
Qed.

Lemma kind0_insert_idempotent_witness :
  get_prop (JObj [("cluster_id", JStr "c1")]) "cluster_id" = JStr "c1" /\
  ("c1" ∉ cluster_records (mkStore ["c0"] [] 0)) /\
  count (isInsertAttempt "c1")
        (onMessage memdb Dispatcher.jobA (mkStore ["c0"] [] 0)).1 = 1 /\
  count (isInsertAttempt "c1")
        (onMessage memdb Dispatcher.jobA
           (onMessage memdb Dispatcher.jobA (mkStore ["c0"] [] 0)).2).1 = 0.
Proof.
  assert (Habs : "c1" ∉ cluster_records (mkStore ["c0"] [] 0)).
  { simpl. rewrite list_elem_of_singleton. discriminate. }
  split; [reflexivity|]. split; [exact Habs|].
  exact (kind0_insert_idempotent memdb _ memdb_laws "c1"
           (JObj [("cluster_id", JStr "c1")]) (mkStore ["c0"] [] 0) eq_refl Habs).
Defined.

End DbWorkerFacts.

(** * Further properties of the dispatcher *)

Module DispatcherExtra.
Import Dispatcher DispatcherFacts.

Lemma run_app t1 t2 p :
  run (t1 ++ t2) p = run t1 p ≫= run t2.
Proof.
  revert p. induction t1 as [|e t1 IH]; intros p; simpl; [done|].
  destruct (enabled e p); [apply IH|done].
Qed.

Lemma assign_burst n js j :
  assignWorkToWorker j (burstPool n js) = burstPool n (js ++ [j]).
Proof.
  destruct (decide (length js < n)) as [Hlt|Hge].
  - assert (Hfind : finAvailableWorker (burstPool n js)
                    = Some (length js, mkWorker false [])).
    { unfold finAvailableWorker, burstPool. simpl.
      rewrite take_ge by lia. apply list_find_Some. split_and!.
      - rewrite lookup_app_r by (rewrite length_fmap; lia).
        rewrite length_fmap, Nat.sub_diag. apply lookup_replicate_2. lia.
      - done.
      - intros k w Hk Hlk. rewrite lookup_app_l in Hk by (rewrite length_fmap; lia).
        apply list_lookup_fmap_Some in Hk as (j' & -> & _). done. }
    destruct (assign_idle j _ _ _ Hfind) as (_ & _ & _ & ->).
    unfold burstPool. simpl.
    rewrite !take_ge by (rewrite ?length_app; simpl; lia).
    rewrite !drop_ge by (rewrite ?length_app; simpl; lia).
    f_equal.
    + rewrite insert_app_r_alt by (rewrite length_fmap; lia).
      rewrite length_fmap, Nat.sub_diag, fmap_app, length_app. simpl.
      rewrite <- (assoc_L (++)). f_equal. simpl.
      destruct (n - length js) as [|m] eqn:E; [lia|]. simpl.
      do 2 f_equal. lia.
    + rewrite imap_app. simpl. by rewrite Nat.add_0_r.
  - assert (Hfind : finAvailableWorker (burstPool n js) = None).
    { unfold finAvailableWorker, burstPool. simpl.
      apply list_find_None. apply Forall_app. split.
      - apply Forall_fmap, Forall_true. done.
      - replace (n - length js) with 0 by lia. constructor. }
    destruct (assign_none j _ Hfind) as (_ & ->).
    unfold burstPool. simpl. rewrite length_app. simpl.
    rewrite take_app_le by lia. rewrite drop_app_le by lia.
    replace (n - (length js + 1)) with (n - length js) by lia. done.
Qed.

(** Submitting jobs to a fresh pool of [n] workers while none is
    answered: the first [n] jobs go to workers [0], [1], ... in that
    order, one each, and every later job waits in the queue in
    submission order. *)
Theorem burst_fills_pool_in_order n js :
  run (Submit <$> js) (createWorkerPoolOf n) = Some (burstPool n js).
Proof.
  induction js as [|j js IH] using rev_ind.
  - simpl. unfold createWorkerPoolOf, burstPool. simpl.
    by rewrite take_nil, drop_nil, Nat.sub_0_r.
  - rewrite fmap_app, run_app, IH. simpl. by rewrite assign_burst.
Qed.

Lemma step_length e p :
  length (workerPool (step e p)) = length (workerPool p).
Proof.
  destruct e as [j|i m]; simpl.
  - unfold assignWorkToWorker. destruct (finAvailableWorker p) as [[i w]|]; simpl;
      by rewrite ?length_insert.
  - unfold handleWorkerMessages. simpl.
    destruct (requestQueue p); simpl.
    + by rewrite !length_alter.
    + unfold assignWorkToWorker. destruct (finAvailableWorker _) as [[k w]|]; simpl;
        by rewrite ?length_insert, !length_alter.
Qed.

(** The pool neither grows nor shrinks, so at most [n] jobs are in the
    hands of workers at any time. *)
Theorem pool_size_fixed n tr p :
  run tr (createWorkerPoolOf n) = Some p ->
  length (workerPool p) = n /\ busyCount p <= n.
Proof.
  intros Hrun.
  assert (Hlen : length (workerPool p) = n).
  { assert (Hgen : forall tr q q', run tr q = Some q' ->
                     length (workerPool q') = length (workerPool q)).
    { clear. induction tr as [|e tr IH]; intros q q' H; simpl in H.
      - by simplify_eq.
      - destruct (enabled e q); [|done]. rewrite (IH _ _ H). apply step_length. }
    rewrite (Hgen _ _ _ Hrun). simpl. apply length_replicate. }
  split; [done|]. rewrite <- Hlen. unfold busyCount. apply length_filter.
Qed.

Lemma pool_size_fixed_witness :
  run sampleRun createWorkerPool <> None /\
  busyCount (mkPool [mkWorker true [jobA]; mkWorker true [jobB]; mkWorker true [jobA]]
                    [] [(0, jobA); (1, jobB); (2, jobA); (1, jobB)]) <= 3.
Proof.
  split; [discriminate|].
  exact (proj2 (pool_size_fixed workerPoolSize sampleRun _ eq_refl)).
Defined.

(** No job waits while a worker is idle, and no job is lost, repeated
    or overtaken: the jobs handed to workers so far, followed by the
    queue, are the submitted jobs in submission order. *)
Theorem work_conserving_fifo n tr p :
  run tr (createWorkerPoolOf n) = Some p ->
  (requestQueue p <> [] ->
   forall i w, workerPool p !! i = Some w -> busy w = true) /\
  (posted p).*2 ++ requestQueue p = submitted tr.
Proof.
  intros Hrun.
  destruct (run_Inv tr _ _ (init_Inv n) Hrun) as ([_ Hq] & _ & Hf).
  split; [|exact Hf].
  intros Hne i w Hi. apply (Forall_lookup_1 _ _ _ _ (Hq Hne) Hi).
Qed.

Lemma work_conserving_fifo_witness :
  run [Submit jobA; Submit jobB; Submit jobA; Submit jobB; Submit jobA]
      createWorkerPool = Some fullPool /\
  (posted fullPool).*2 ++ requestQueue fullPool
  = [jobA; jobB; jobA; jobB; jobA].
Proof.
  split; [reflexivity|].
  exact (proj2 (work_conserving_fifo workerPoolSize
                  [Submit jobA; Submit jobB; Submit jobA; Submit jobB; Submit jobA]
                  fullPool eq_refl)).
Defined.

Lemma step_keeps_busy_worker e p i j :
  Inv p -> enabled e p = true -> isCompleteOf i e = false ->
  workerPool p !! i = Some (mkWorker true [j]) ->
  workerPool (step e p) !! i = Some (mkWorker true [j]).
Proof.
  intros HI Hen Hne Hi. destruct e as [j'|k m].
  - simpl. destruct (finAvailableWorker p) as [[k w]|] eqn:Hf.
    + destruct (assign_idle j' p k w Hf) as (Hk & Hb & _ & ->). simpl.
      rewrite list_lookup_insert_ne; [done|]. intros ->. simplify_eq.
    + destruct (assign_none j' p Hf) as (_ & ->). done.
  - simpl in Hne. apply bool_decide_eq_false in Hne.
    destruct (complete_shape p k m HI Hen) as (w & j0 & _ & _ & _ & ->).
    destruct (requestQueue p); simpl; by rewrite list_lookup_insert_ne.
Qed.

Lemma run_keeps_busy_worker tr : forall p p' i j,
  Inv p -> run tr p = Some p' ->
  forallb (fun e => negb (isCompleteOf i e)) tr = true ->
  workerPool p !! i = Some (mkWorker true [j]) ->
  workerPool p' !! i = Some (mkWorker true [j]).
Proof.
  induction tr as [|e tr IH]; intros p p' i j HI Hrun Hno Hi; simpl in *.
  - by simplify_eq.
  - destruct (enabled e p) eqn:Hen; [|done].
    apply andb_true_iff in Hno as [Hne Hno]. apply negb_true_iff in Hne.
    destruct (step_Inv e p HI Hen) as (HI1 & _).
    eapply IH; eauto. by apply step_keeps_busy_worker.
Qed.

(** A worker that never answers keeps its job and its busy flag whatever
    else happens: nothing but its own completion signal frees it. *)
Theorem silent_worker_stays_busy n tr1 tr2 p p' i w :
  run tr1 (createWorkerPoolOf n) = Some p ->
  workerPool p !! i = Some w -> busy w = true ->
  run tr2 p = Some p' ->
  forallb (fun e => negb (isCompleteOf i e)) tr2 = true ->
  workerPool p' !! i = Some w.
Proof.
  intros Hrun1 Hi Hb Hrun2 Hno.
  destruct (run_Inv tr1 _ _ (init_Inv n) Hrun1) as (HI & _).
  pose proof (Forall_lookup_1 _ _ _ _ (proj1 HI) Hi) as [[_ [j Hj]]|[? _]];
    [|congruence].
  assert (w = mkWorker true [j]) as -> by (destruct w; simpl in *; congruence).
  eapply run_keeps_busy_worker; eauto.
Qed.

Lemma silent_worker_stays_busy_witness :
  run [Submit jobA; Submit jobB] createWorkerPool
    = Some (mkPool [mkWorker true [jobA]; mkWorker true [jobB]; mkWorker false []]
                   [] [(0, jobA); (1, jobB)]) /\
  run [Submit jobA; Complete 1 lost; Submit jobB; Submit jobB]
      (mkPool [mkWorker true [jobA]; mkWorker true [jobB]; mkWorker false []]
              [] [(0, jobA); (1, jobB)])
    = Some (mkPool [mkWorker true [jobA]; mkWorker true [jobB]; mkWorker true [jobA]]
                   [jobB] [(0, jobA); (1, jobB); (2, jobA); (1, jobB)]) /\
  workerPool (mkPool [mkWorker true [jobA]; mkWorker true [jobB]; mkWorker true [jobA]]
                     [jobB] [(0, jobA); (1, jobB); (2, jobA); (1, jobB)]) !! 0
    = Some (mkWorker true [jobA]).
Proof.
  split; [reflexivity|]. split; [reflexivity|].
  exact (silent_worker_stays_busy workerPoolSize [Submit jobA; Submit jobB]
           [Submit jobA; Complete 1 lost; Submit jobB; Submit jobB]
           _ _ 0 (mkWorker true [jobA])
           eq_refl eq_refl eq_refl eq_refl eq_refl).
Defined.

End DispatcherExtra.

(** * Further properties of the registry and the supervisor *)

Module ServerExtra.
Import Server ServerFacts.

(** Frames that do not decode, that carry no topic name, or that name a
    topic the registry does not have, change nothing at all: no
    subscription, no acknowledgment, no job. *)
Theorem undecodable_or_unknown_ignored c s :
  onMessage c None s = s /\
  (forall v, (forall name, get_prop v "channel" <> JStr name) ->
             onMessage c (Some v) s = s) /\
  (forall v name, get_prop v "channel" = JStr name ->
                  assoc_get name (channels s) = None ->
                  onMessage c (Some v) s = s).
Proof.
  split_and!; [done| |].
  - intros v Hv. unfold onMessage. destruct v; try done.
    destruct (get_prop _ "channel") eqn:E; try done. by destruct (Hv _ eq_refl).
  - intros v name Hv Hn. destruct v; try discriminate Hv.
    unfold onMessage. by rewrite Hv, Hn.
Qed.

Lemma assoc_alter_keys {A} (f : A -> A) k (l : list (string * A)) :
  (assoc_alter f k l).*1 = l.*1.
Proof.
  induction l as [|[k' v] l IH]; [done|]. simpl.
  case_bool_decide; csimpl; by rewrite ?IH.
Qed.

Lemma cleanupClient_keys c chans : (cleanupClient c chans).*1 = chans.*1.
Proof.
  induction chans as [|[k subs] chans IH]; [done|]. simpl.
  destruct (indexOf c subs); csimpl; by rewrite ?IH.
Qed.

Lemma onMessage_keys c parsed s :
  (channels (onMessage c parsed s)).*1 = (channels s).*1.
Proof.
  unfold onMessage. destruct parsed as [v|]; [|done].
  destruct v; try done.
  destruct (get_prop _ "channel"); try done.
  destruct (assoc_get _ _); [|done].
  repeat case_bool_decide; simpl; by rewrite ?assoc_alter_keys.
Qed.

Lemma step_keys e s : (channels (step e s)).*1 = (channels s).*1.
Proof.
  destruct e as [c0|c0|c0|c0 parsed|c0|i m]; simpl; try done.
  - destruct (clients s !! c0) as [cl|]; [|done].
    unfold onHeartbeat. destruct (isAlive cl); simpl; [done|].
    apply cleanupClient_keys.
  - by destruct (clients s !! c0).
  - apply onMessage_keys.
  - destruct (clients s !! c0) as [cl|]; [|done]. simpl. apply cleanupClient_keys.
Qed.

Lemma run_keys tr : forall s s',
  run tr s = Some s' -> (channels s').*1 = (channels s).*1.
Proof.
  induction tr as [|e tr IH]; intros s s' Hrun; simpl in Hrun.
  - by simplify_eq.
  - destruct (enabled e s); [|done]. rewrite (IH _ _ Hrun). apply step_keys.
Qed.

(** The topics are those set up at start, in the same order, whatever
    the clients send: no event creates, renames or drops a topic. *)
Theorem topics_fixed tr s :
  run tr init = Some s -> (channels s).*1 = ["backend"; "frontend"].
Proof. intros Hrun. by rewrite (run_keys _ _ _ Hrun). Qed.

Lemma topics_fixed_witness :
  exists s,
    run [Connection 0; Message 0 (Some (frameOn "other"));
         Message 0 (Some (frameOn "frontend")); Close 0] init = Some s /\
    (channels s).*1 = ["backend"; "frontend"].
Proof.
  eexists. split; [reflexivity|].
  exact (topics_fixed
           [Connection 0; Message 0 (Some (frameOn "other"));
            Message 0 (Some (frameOn "frontend")); Close 0] _ eq_refl).
Defined.

(** ** What [cleanupClient] does exactly *)

Lemma indexOf_Some c subs i :
  indexOf c subs = Some i -> subs !! i = Some c.
Proof.
  unfold indexOf. destruct (list_find _ subs) as [[k x]|] eqn:E; [|done].
  simpl. intros [= <-]. apply list_find_Some in E as (? & -> & _). done.
Qed.

Lemma indexOf_None c subs :
  indexOf c subs = None -> filter (fun x => x = c) subs = [].
Proof.
  unfold indexOf. destruct (list_find _ subs) as [[k x]|] eqn:E; [done|].
  intros _. apply list_find_None in E.
  induction E as [|x l Hx _ IH]; [done|]. by rewrite filter_cons_False.
Qed.

Lemma filter_delete_same (c : Conn) (l : list Conn) i :
  l !! i = Some c ->
  S (length (filter (fun x => x = c) (delete i l)))
  = length (filter (fun x => x = c) l).
Proof.
  revert i. induction l as [|x l IH]; intros [|i] H; simplify_eq/=.
  - by rewrite filter_cons_True.
  - specialize (IH _ H). rewrite !filter_cons. case_decide; simpl; lia.
Qed.

Lemma filter_delete_other (c : Conn) (l : list Conn) i :
  l !! i = Some c ->
  filter (fun x => x <> c) (delete i l) = filter (fun x => x <> c) l.
Proof.
  revert i. induction l as [|x l IH]; intros [|i] H; simplify_eq/=.
  - by rewrite filter_cons_False by naive_solver.
  - rewrite !filter_cons. by rewrite (IH _ H).
Qed.

(** [cleanupClient] removes exactly one entry of the connection from
    the registry when there is one, and none otherwise; it keeps the
    topics; and in every topic it leaves the other subscribers as they
    are, in the same order. *)
Theorem cleanup_removes_one_entry c chans :
  occurrences c (cleanupClient c chans) = pred (occurrences c chans) /\
  (cleanupClient c chans).*1 = chans.*1 /\
  (forall name,
     filter (fun x => x <> c) (subsOf name (cleanupClient c chans))
     = filter (fun x => x <> c) (subsOf name chans)) /\
  (occurrences c chans = 0 -> cleanupClient c chans = chans).
Proof.
  split_and!.
  - unfold occurrences.
    induction chans as [|[k subs] chans IH]; [done|]. simpl.
    destruct (indexOf c subs) as [i|] eqn:E; csimpl.
    + apply indexOf_Some in E. rewrite <- (filter_delete_same c subs i E). done.
    + rewrite IH. by rewrite (indexOf_None _ _ E).
  - apply cleanupClient_keys.
  - intros name. unfold subsOf.
    induction chans as [|[k subs] chans IH]; [done|]. simpl.
    destruct (indexOf c subs) as [i|] eqn:E; simpl; case_bool_decide; simpl; try done.
    apply filter_delete_other. by apply indexOf_Some.
  - unfold occurrences.
    induction chans as [|[k subs] chans IH]; [done|]. csimpl. intros H0.
    destruct (indexOf c subs) as [i|] eqn:E.
    + apply indexOf_Some in E. pose proof (filter_delete_same c subs i E). lia.
    + rewrite IH; [done|lia].
Qed.

(** ** Subscriber arrays hold no socket twice *)

Lemma cleanupClient_nodups c chans : nodups chans -> nodups (cleanupClient c chans).
Proof.
  unfold nodups. induction 1 as [|[k subs] chans Hx Hrest IH]; [constructor|]. simpl.
  destruct (indexOf c subs); constructor; simpl in *; try done.
  eapply sublist_NoDup; [exact Hx|apply sublist_delete].
Qed.

Lemma push_nodups c name subs chans :
  nodups chans -> assoc_get name chans = Some subs -> c ∉ subs ->
  nodups (assoc_alter (fun subs => subs ++ [c]) name chans).
Proof.
  unfold nodups. induction 1 as [|[k l] chans Hx Hrest IH]; [constructor|]. simpl.
  case_bool_decide; intros Hget Hnin.
  - simplify_eq. constructor; [|done]. simpl in *.
    apply NoDup_app. split_and!; [done| |apply NoDup_singleton].
    intros x Hx' ->%list_elem_of_singleton. done.
  - constructor; [done|]. by apply IH.
Qed.

Lemma onMessage_nodups c parsed s :
  nodups (channels s) -> nodups (channels (onMessage c parsed s)).
Proof.
  intros Hn. unfold onMessage. destruct parsed as [v|]; [|done].
  destruct v; try done.
  destruct (get_prop _ "channel"); try done.
  destruct (assoc_get _ _) eqn:Hget; [|done].
  repeat case_bool_decide; simpl; try done; by eapply push_nodups.
Qed.

Lemma step_nodups e s : nodups (channels s) -> nodups (channels (step e s)).
Proof.
  intros Hn. destruct e as [c0|c0|c0|c0 parsed|c0|i m]; simpl; try done.
  - destruct (clients s !! c0) as [cl|]; [|done].
    unfold onHeartbeat. destruct (isAlive cl); simpl; [done|].
    by apply cleanupClient_nodups.
  - by destruct (clients s !! c0).
  - by apply onMessage_nodups.
  - destruct (clients s !! c0) as [cl|]; [|done]. simpl.
    by apply cleanupClient_nodups.
Qed.

(** In every state the server reaches, no topic lists a connection
    twice. *)
Theorem subscribers_never_repeat tr s name :
  run tr init = Some s -> NoDup (subsOf name (channels s)).
Proof.
  intros Hrun.
  assert (Hn : nodups (channels s)).
  { assert (Hgen : forall tr s s', nodups (channels s) -> run tr s = Some s' ->
                                   nodups (channels s')).
    { clear. induction tr as [|e tr IH]; intros s s' Hn Hrun; simpl in Hrun.
      - by simplify_eq.
      - destruct (enabled e s); [|done]. eapply IH; [|done]. by apply step_nodups. }
    eapply Hgen; [|exact Hrun]. repeat constructor. }
  unfold subsOf. clear Hrun.
  induction Hn as [|[k subs] chans Hx _ IH]; simpl; [constructor|].
  case_bool_decide; done.
Qed.

Lemma subscribers_never_repeat_witness :
  exists s,
    run [Connection 0; Connection 1; Message 1 (Some (frameOn "frontend"));
         Message 0 (Some (frameOn "frontend")); Message 1 (Some (frameOn "frontend"))]
        init = Some s /\
    subsOf "frontend" (channels s) = [1; 0] /\
    NoDup (subsOf "frontend" (channels s)).
Proof.
  eexists. split; [reflexivity|]. split; [reflexivity|].
  exact (subscribers_never_repeat
           [Connection 0; Connection 1; Message 1 (Some (frameOn "frontend"));
            Message 0 (Some (frameOn "frontend")); Message 1 (Some (frameOn "frontend"))]
           _ "frontend" eq_refl).
Defined.

(** ** The interval is cleared by the heartbeat only *)

Lemma step_timers e s :
  timers_follow_termination s -> timers_follow_termination (step e s).
Proof.
  intros Hinv c cl.
  destruct e as [c0|c0|c0|c0 parsed|c0|i m]; simpl; try apply Hinv.
  - destruct (decide (c = c0)) as [->|Hne].
    + rewrite lookup_insert_eq. by intros [= <-].
    + rewrite lookup_insert_ne by done. apply Hinv.
  - destruct (clients s !! c0) as [cl0|] eqn:Hc0; [|apply Hinv].
    unfold onHeartbeat. destruct (isAlive cl0); simpl;
      (destruct (decide (c = c0)) as [->|Hne];
       [rewrite lookup_insert_eq; intros [= <-]; simpl; try done; by eapply Hinv
       |rewrite lookup_insert_ne by done; apply Hinv]).
  - destruct (clients s !! c0) as [cl0|] eqn:Hc0; [|apply Hinv]. simpl.
    destruct (decide (c = c0)) as [->|Hne].
    + rewrite lookup_insert_eq. intros [= <-]. simpl. by eapply Hinv.
    + rewrite lookup_insert_ne by done. apply Hinv.
  - rewrite (proj1 (onMessage_clients_cleanups c0 parsed s)). apply Hinv.
  - destruct (clients s !! c0) as [cl0|] eqn:Hc0; [|apply Hinv]. simpl.
    destruct (decide (c = c0)) as [->|Hne].
    + rewrite lookup_insert_eq. intros [= <-]. simpl. by eapply Hinv.
    + rewrite lookup_insert_ne by done. apply Hinv.
Qed.

(** The interval of a connection is armed exactly as long as the
    heartbeat has not terminated it.  In particular the close event
    leaves the interval armed: the timer of a connection that the peer
    closed keeps firing until a period finds the flag unset. *)
Theorem timer_cleared_only_by_heartbeat tr s c cl :
  run tr init = Some s -> clients s !! c = Some cl ->
  heartbeat cl = negb (terminated cl).
Proof.
  intros Hrun.
  assert (Hgen : forall tr s s', timers_follow_termination s -> run tr s = Some s' ->
                                 timers_follow_termination s').
  { clear. induction tr as [|e tr IH]; intros s s' Hn Hrun; simpl in Hrun.
    - by simplify_eq.
    - destruct (enabled e s); [|done]. eapply IH; [|done]. by apply step_timers. }
  apply (Hgen tr init s); [|done]. intros c' cl'. simpl. by rewrite lookup_empty.
Qed.

Lemma timer_cleared_only_by_heartbeat_witness :
  exists s,
    run [Connection 0; Close 0; Tick 0] init = Some s /\
    clients s !! 0 = Some (mkClient false true false true) /\
    heartbeat (mkClient false true false true)
    = negb (terminated (mkClient false true false true)).
Proof.
  eexists. split; [reflexivity|]. split; [reflexivity|].
  exact (timer_cleared_only_by_heartbeat [Connection 0; Close 0; Tick 0] _ 0 _
           eq_refl eq_refl).
Defined.

(** ** The server drives the dispatcher *)

Lemma assoc_get_key {A} k (l : list (string * A)) :
  k ∈ l.*1 -> is_Some (assoc_get k l).
Proof.
  induction l as [|[k' v] l IH]; csimpl; [by intros ?%elem_of_nil|].
  intros [->|Hin]%elem_of_cons; case_bool_decide; eauto; done.
Qed.

Lemma onMessage_pool c parsed s :
  "backend" ∈ (channels s).*1 ->
  pool (onMessage c parsed s) =
    match toDispatcher (Message c parsed) with
    | Some (Dispatcher.Submit j) => Dispatcher.assignWorkToWorker j (pool s)
    | _ => pool s
    end.
Proof.
  intros Hb. apply assoc_get_key in Hb as [subs Hb].
  unfold onMessage, toDispatcher. destruct parsed as [v|]; [|done].
  destruct v; try done.
  destruct (get_prop _ "channel") as [| | | |name| |]; try done. simpl.
  case_bool_decide as Hname.
  - subst name. rewrite Hb. by case_bool_decide.
  - destruct (assoc_get name (channels s)); [|done]. by case_bool_decide.
Qed.

Lemma run_projects tr : forall s s',
  "backend" ∈ (channels s).*1 -> run tr s = Some s' ->
  Dispatcher.run (omap toDispatcher tr) (pool s) = Some (pool s').
Proof.
  induction tr as [|e tr IH]; intros s s' Hb Hrun; simpl in Hrun.
  - by simplify_eq.
  - destruct (enabled e s) eqn:Hen; [|done].
    assert (Hb' : "backend" ∈ (channels (step e s)).*1) by by rewrite step_keys.
    specialize (IH _ _ Hb' Hrun).
    destruct e as [c0|c0|c0|c0 parsed|c0|i m]; simpl in *.
    + done.
    + rewrite <- IH. destruct (clients s !! c0) as [cl|]; [|done].
      unfold onHeartbeat. by destruct (isAlive cl).
    + rewrite <- IH. by destruct (clients s !! c0).
    + rewrite (onMessage_pool _ _ _ Hb) in IH. simpl in IH.
      destruct parsed as [v|]; [|done].
      destruct (strict_eq_str _ _); [|done]. done.
    + rewrite <- IH. by destruct (clients s !! c0).
    + rewrite Hen. done.
Qed.

(** The pool of the running server is the pool the dispatcher reaches
    on the events that concern it: every decoded frame on ["backend"] is
    one submission, whether or not its sender was subscribed before, and
    every worker message one completion; no other event touches the
    pool.  So the occupancy invariant, the first-idle rule and the
    queue order hold in the server as they do for the dispatcher. *)
Theorem server_drives_dispatcher tr s :
  run tr init = Some s ->
  Dispatcher.run (omap toDispatcher tr) Dispatcher.createWorkerPool = Some (pool s) /\
  Dispatcher.busyCount (pool s) + length (Dispatcher.requestQueue (pool s))
    = length (Dispatcher.submitted (omap toDispatcher tr))
      - Dispatcher.completed (omap toDispatcher tr).
Proof.
  intros Hrun.
  assert (Hp : Dispatcher.run (omap toDispatcher tr) Dispatcher.createWorkerPool
               = Some (pool s)).
  { apply (run_projects tr init s); [|done]. simpl. set_solver. }
  split; [done|].
  by destruct (DispatcherFacts.run_Inv _ _ _
                 (DispatcherFacts.init_Inv Dispatcher.workerPoolSize) Hp)
    as (_ & Hc & _); rewrite DispatcherFacts.init_busyCount in Hc; simpl in Hc; lia.
Qed.

Lemma server_drives_dispatcher_witness :
  exists s,
    run [Connection 0; Message 0 (Some (frameOn "backend"));
         Message 0 (Some (frameOn "frontend")); Message 0 (Some (frameOn "backend"));
         WorkerMessage 0 Dispatcher.fine] init = Some s /\
    Dispatcher.busyCount (pool s) + length (Dispatcher.requestQueue (pool s)) = 2 - 1.
Proof.
  eexists. split; [reflexivity|].
  exact (proj2 (server_drives_dispatcher
           [Connection 0; Message 0 (Some (frameOn "backend"));
            Message 0 (Some (frameOn "frontend")); Message 0 (Some (frameOn "backend"));
            WorkerMessage 0 Dispatcher.fine] _ eq_refl)).
Defined.

(** ** Acknowledgments *)

Lemma acks_app c name l1 l2 : acks c name (l1 ++ l2) = acks c name l1 + acks c name l2.
Proof. unfold acks. by rewrite filter_app, length_app. Qed.

Lemma ack_text_inj c c' name name' :
  Send c ("You are connected to the channel " +:+ name)
  = Send c' ("You are connected to the channel " +:+ name') ->
  c = c' /\ name = name'.
Proof. intros H. cbn in H. by simplify_eq. Qed.

Lemma acks_ack c name c0 name0 :
  acks c name [Send c0 ("You are connected to the channel " +:+ name0)]
  = Dispatcher.b2n (bool_decide (c = c0 /\ name = name0)).
Proof.
  unfold acks. rewrite filter_cons. case_decide as H.
  - apply ack_text_inj in H as [-> ->]. by rewrite bool_decide_eq_true_2.
  - rewrite bool_decide_eq_false_2; [done|]. intros [-> ->]. done.
Qed.

Lemma acks_others c name (l : list Action) :
  Forall (fun a => match a with Send _ _ => False | _ => True end) l ->
  acks c name l = 0.
Proof.
  unfold acks. induction 1 as [|a l Ha _ IH]; [done|].
  rewrite filter_cons_False; [done|]. intros ->. done.
Qed.

(** A frame either leaves registry and log alone, or it is a decoded
    frame on a known topic from a connection not yet subscribed. *)
Lemma onMessage_cases c parsed s :
  (channels (onMessage c parsed s) = channels s /\
   log (onMessage c parsed s) = log s) \/
  (exists v name subs,
     parsed = Some v /\ get_prop v "channel" = JStr name /\
     assoc_get name (channels s) = Some subs /\ (c ∉ subs) /\
     channels (onMessage c parsed s)
       = assoc_alter (fun subs => subs ++ [c]) name (channels s) /\
     log (onMessage c parsed s)
       = log s ++ [Send c ("You are connected to the channel " +:+ name)]).
Proof.
  destruct parsed as [v|]; [|by left].
  destruct (get_prop v "channel") as [| | | |name| |] eqn:Hch;
    try (left; unfold onMessage; destruct v; try done; by rewrite Hch).
  destruct (assoc_get name (channels s)) as [subs|] eqn:Hget.
  - destruct (onMessage_topic c v name subs s Hch Hget) as (_ & -> & ->).
    case_bool_decide; [by left|]. right. by exists v, name, subs.
  - left. unfold onMessage. destruct v; try done. by rewrite Hch, Hget.
Qed.

Lemma subsOf_push c name name0 chans subs :
  assoc_get name0 chans = Some subs ->
  subsOf name (assoc_alter (fun subs => subs ++ [c]) name0 chans)
  = if bool_decide (name = name0) then subs ++ [c] else subsOf name chans.
Proof.
  intros Hget. unfold subsOf. case_bool_decide as Hn.
  - subst. by rewrite assoc_get_alter, Hget.
  - by rewrite assoc_get_alter_ne.
Qed.

Lemma subsOf_cleanup_other c c0 name chans :
  c <> c0 ->
  (c ∈ subsOf name (cleanupClient c0 chans)) <-> (c ∈ subsOf name chans).
Proof.
  intros Hne.
  assert (Hf : filter (fun x => x <> c0) (subsOf name (cleanupClient c0 chans))
               = filter (fun x => x <> c0) (subsOf name chans)).
  { unfold subsOf.
    induction chans as [|[k subs] chans IH]; [done|]. simpl.
    destruct (indexOf c0 subs) as [i|] eqn:E; simpl; case_bool_decide; simpl; try done.
    apply filter_delete_other. by apply indexOf_Some. }
  split; intros Hin.
  - assert (c ∈ filter (fun x => x <> c0) (subsOf name (cleanupClient c0 chans)))
      as Hin' by (by apply list_elem_of_filter).
    rewrite Hf in Hin'. by apply list_elem_of_filter in Hin' as [_ ?].
  - assert (c ∈ filter (fun x => x <> c0) (subsOf name chans))
      as Hin' by (by apply list_elem_of_filter).
    rewrite <- Hf in Hin'. by apply list_elem_of_filter in Hin' as [_ ?].
Qed.

Lemma b2n_le_1 b : Dispatcher.b2n b <= 1.
Proof. destruct b; simpl; lia. Qed.

Lemma step_acks e s : acks_match s -> enabled e s = true -> acks_match (step e s).
Proof.
  intros Hinv Hen c name. specialize (Hinv c name).
  destruct e as [c0|c0|c0|c0 parsed|c0|i m]; simpl in Hen |- *; try done.
  - apply bool_decide_eq_true in Hen.
    destruct (decide (c = c0)) as [->|Hne].
    + rewrite lookup_insert_eq. simpl. by rewrite Hen in Hinv.
    + by rewrite lookup_insert_ne.
  - destruct (clients s !! c0) as [cl0|] eqn:Hc0; [|done].
    unfold onHeartbeat. destruct (isAlive cl0); simpl.
    + rewrite acks_app, (acks_others _ _ [Ping c0]) by (by repeat constructor).
      rewrite Nat.add_0_r.
      destruct (decide (c = c0)) as [->|Hne].
      * rewrite lookup_insert_eq. simpl. by rewrite Hc0 in Hinv.
      * by rewrite lookup_insert_ne.
    + rewrite <- (assoc_L (++)), acks_app.
      rewrite (acks_others _ _ (_ ++ _)) by (by repeat constructor).
      rewrite Nat.add_0_r.
      destruct (decide (c = c0)) as [->|Hne].
      * rewrite lookup_insert_eq. simpl. rewrite Hc0 in Hinv.
        destruct (negb _); [rewrite Hinv; apply b2n_le_1|done].
      * rewrite lookup_insert_ne by done.
        destruct (match clients s !! c with Some _ => _ | None => _ end); [|done].
        rewrite Hinv. do 2 f_equal. apply bool_decide_ext.
        symmetry. by apply subsOf_cleanup_other.
  - destruct (clients s !! c0) as [cl0|] eqn:Hc0; [|done]. simpl.
    destruct (decide (c = c0)) as [->|Hne].
    + rewrite lookup_insert_eq. simpl. by rewrite Hc0 in Hinv.
    + by rewrite lookup_insert_ne.
  - rewrite (proj1 (onMessage_clients_cleanups c0 parsed s)).
    destruct (onMessage_cases c0 parsed s)
      as [[-> ->]|(v & name0 & subs & -> & Hch & Hget & Hnin & -> & ->)]; [done|].
    rewrite acks_app, acks_ack, (subsOf_push _ _ _ _ _ Hget).
    destruct (clients s !! c0) as [cl0|] eqn:Hc0; [|done].
    apply andb_true_iff in Hen as [Ht Hcl]. apply negb_true_iff in Ht, Hcl.
    destruct (decide (c = c0 /\ name = name0)) as [[-> ->]|Hne].
    + rewrite Hc0 in Hinv |- *. rewrite Ht, Hcl in Hinv |- *. simpl in Hinv |- *.
      rewrite !bool_decide_eq_true_2 by (done || set_solver).
      rewrite Hinv. unfold subsOf. rewrite Hget. simpl.
      rewrite (bool_decide_eq_true_2 (name0 = name0)) by done.
      rewrite (bool_decide_eq_false_2 (c0 ∈ subs)) by done.
      rewrite bool_decide_eq_true_2 by set_solver. done.
    + rewrite (bool_decide_eq_false_2 (c = c0 /\ name = name0)) by done.
      simpl. rewrite Nat.add_0_r.
      destruct (match clients s !! c with Some _ => _ | None => _ end); [|done].
      rewrite Hinv. do 2 f_equal. apply bool_decide_ext.
      destruct (decide (name = name0)) as [->|Hn];
        [rewrite bool_decide_eq_true_2 by done
        |by rewrite bool_decide_eq_false_2 by done].
      unfold subsOf. rewrite Hget. simpl.
      assert (c <> c0) by (intros ->; by apply Hne).
      rewrite elem_of_app, list_elem_of_singleton.
      split; [by left|]. intros [?|?]; [done|contradiction].
  - destruct (clients s !! c0) as [cl0|] eqn:Hc0; [|done]. simpl.
    rewrite acks_app, (acks_others _ _ [Cleanup c0]) by (by repeat constructor).
    rewrite Nat.add_0_r.
    destruct (decide (c = c0)) as [->|Hne].
    + rewrite lookup_insert_eq. simpl. rewrite Hc0 in Hinv.
      rewrite orb_true_r. simpl.
      destruct (negb _); [rewrite Hinv; apply b2n_le_1|done].
    + rewrite lookup_insert_ne by done.
      destruct (match clients s !! c with Some _ => _ | None => _ end); [|done].
      rewrite Hinv. do 2 f_equal. apply bool_decide_ext.
      symmetry. by apply subsOf_cleanup_other.
Qed.

(** Over its whole life a connection is sent the acknowledgment of a
    topic at most once; and as long as its transport is up, it has been
    sent exactly when it is among the subscribers of that topic. *)
Theorem acknowledged_once_per_topic tr s c name :
  run tr init = Some s ->
  acks c name (log s) <= 1 /\
  (forall cl, clients s !! c = Some cl -> terminated cl = false -> closed cl = false ->
     (acks c name (log s) = 1 <-> c ∈ subsOf name (channels s))).
Proof.
  intros Hrun.
  assert (Hinv : acks_match s).
  { assert (Hgen : forall tr s s', acks_match s -> run tr s = Some s' -> acks_match s').
    { clear. induction tr as [|e tr IH]; intros s s' Hn Hrun; simpl in Hrun.
      - by simplify_eq.
      - destruct (enabled e s) eqn:Hen; [|done]. eapply IH; [|done]. by apply step_acks. }
    apply (Hgen tr init s); [|done]. intros c' name'. simpl.
    rewrite lookup_empty. unfold subsOf. simpl.
    repeat case_bool_decide; simpl; try done; set_solver. }
  specialize (Hinv c name). split.
  - destruct (match clients s !! c with Some _ => _ | None => _ end); [|done].
    rewrite Hinv. apply b2n_le_1.
  - intros cl Hc Ht Hcl. rewrite Hc, Ht, Hcl in Hinv. simpl in Hinv. rewrite Hinv.
    case_bool_decide; simpl; split; (done || lia).
Qed.

Lemma acknowledged_once_per_topic_witness :
  exists s,
    run [Connection 0; Message 0 (Some (frameOn "frontend"));
         Message 0 (Some (frameOn "frontend")); Message 0 (Some (frameOn "backend"))]
        init = Some s /\
    acks 0 "frontend" (log s) <= 1.
Proof.
  eexists. split; [reflexivity|].
  exact (proj1 (acknowledged_once_per_topic
           [Connection 0; Message 0 (Some (frameOn "frontend"));
            Message 0 (Some (frameOn "frontend")); Message 0 (Some (frameOn "backend"))]
           _ 0 "frontend" eq_refl)).
Defined.

(** ** Who subscribes a connection *)

Lemma subsOf_cleanup_inv c c0 name chans :
  c ∈ subsOf name (cleanupClient c0 chans) -> c ∈ subsOf name chans.
Proof.
  unfold subsOf. induction chans as [|[k subs] chans IH]; [done|]. simpl.
  destruct (indexOf c0 subs) as [i|]; simpl; case_bool_decide; simpl; try done.
  apply list_elem_of_delete_inv.
Qed.

Lemma step_subscribes e s c name :
  c ∈ subsOf name (channels (step e s)) ->
  c ∈ subsOf name (channels s) \/
  exists v, e = Message c (Some v) /\ get_prop v "channel" = JStr name.
Proof.
  destruct e as [c0|c0|c0|c0 parsed|c0|i m]; simpl; try (by left).
  - destruct (clients s !! c0) as [cl|]; [|by left].
    unfold onHeartbeat. destruct (isAlive cl); simpl; [by left|].
    intros H. left. by eapply subsOf_cleanup_inv.
  - destruct (clients s !! c0) as [cl|]; by left.
  - destruct (onMessage_cases c0 parsed s)
      as [[-> _]|(v & name0 & subs & -> & Hch & Hget & Hnin & -> & _)]; [by left|].
    rewrite (subsOf_push _ _ _ _ _ Hget).
    destruct (decide (name = name0)) as [->|Hn];
      [rewrite bool_decide_eq_true_2 by done
      |rewrite bool_decide_eq_false_2 by done; by left].
    rewrite elem_of_app, list_elem_of_singleton. intros [Hin| ->].
    + left. unfold subsOf. by rewrite Hget.
    + right. by exists v.
  - destruct (clients s !! c0) as [cl|]; [|by left]. simpl.
    intros H. left. by eapply subsOf_cleanup_inv.
Qed.

Lemma run_subscribes tr : forall s s' c name,
  run tr s = Some s' -> c ∈ subsOf name (channels s') ->
  c ∈ subsOf name (channels s) \/
  exists v, Message c (Some v) ∈ tr /\ get_prop v "channel" = JStr name.
Proof.
  induction tr as [|e tr IH]; intros s s' c name Hrun Hin; simpl in Hrun.
  - simplify_eq. by left.
  - destruct (enabled e s); [|done].
    destruct (IH _ _ _ _ Hrun Hin) as [H|(v & Hv & Hch)].
    + destruct (step_subscribes _ _ _ _ H) as [?|(v & -> & Hch)]; [by left|].
      right. exists v. split; [apply list_elem_of_here|done].
    + right. exists v. split; [by apply list_elem_of_further|done].
Qed.

(** A connection is among the subscribers of a topic only if it has
    itself sent a decoded frame naming that topic: no other client and
    no timer ever subscribes it. *)
Theorem subscribed_by_own_frame_only tr s c name :
  run tr init = Some s -> c ∈ subsOf name (channels s) ->
  exists v, Message c (Some v) ∈ tr /\ get_prop v "channel" = JStr name.
Proof.
  intros Hrun Hin.
  destruct (run_subscribes _ _ _ _ _ Hrun Hin) as [H|H]; [|done].
  unfold subsOf in H. simpl in H. repeat case_bool_decide; simpl in H; set_solver.
Qed.

Lemma subscribed_by_own_frame_only_witness :
  exists s,
    run [Connection 0; Connection 1; Message 1 (Some (frameOn "frontend"))] init
      = Some s /\
    (1 ∈ subsOf "frontend" (channels s)) /\
    exists v, Message 1 (Some v)
                ∈ [Connection 0; Connection 1; Message 1 (Some (frameOn "frontend"))] /\
              get_prop v "channel" = JStr "frontend".
Proof.
  eexists. split; [reflexivity|].
  assert (Hin : 1 ∈ subsOf "frontend" [("backend", @nil Conn); ("frontend", [1])])
    by (vm_compute; apply list_elem_of_here).
  split; [exact Hin|].
  exact (subscribed_by_own_frame_only
           [Connection 0; Connection 1; Message 1 (Some (frameOn "frontend"))]
           _ 1 "frontend" eq_refl Hin).
Defined.

(** ** Only a missed probe terminates *)

Lemma server_run_app t1 t2 s : run (t1 ++ t2) s = run t1 s ≫= run t2.
Proof.
  revert s. induction t1 as [|e t1 IH]; intros s; simpl; [done|].
  destruct (enabled e s); [apply IH|done].
Qed.

Lemma run_snoc_inv tr e s s' :
  run (tr ++ [e]) s = Some s' ->
  exists s1, run tr s = Some s1 /\ enabled e s1 = true /\ s' = step e s1.
Proof.
  rewrite server_run_app. destruct (run tr s) as [s1|]; [|done]. simpl.
  destruct (enabled e s1) eqn:Hen; [|done]. intros [= <-]. by exists s1.
Qed.

Lemma missed_snoc c tr e : missed c tr -> missed c (tr ++ [e]).
Proof.
  intros (t1 & t2 & t3 & -> & Hs). exists t1, t2, (t3 ++ [e]). split; [|done].
  rewrite <- (assoc_L (++)). simpl. by rewrite <- (assoc_L (++)).
Qed.

Lemma probing_snoc c tr e :
  probing c tr -> match e with Pong c' => c' <> c | _ => True end ->
  probing c (tr ++ [e]).
Proof.
  intros (t1 & t2 & -> & Hs) He. exists t1, (t2 ++ [e]). split.
  - by rewrite <- (assoc_L (++)).
  - apply Forall_app. split; [done|]. by constructor.
Qed.

Lemma probing_then_tick c tr : probing c tr -> missed c (tr ++ [Tick c]).
Proof.
  intros (t1 & t2 & -> & Hs). exists t1, t2, []. split; [|done].
  by rewrite <- (assoc_L (++)).
Qed.

Lemma probes_invariant tr : forall s,
  run tr init = Some s ->
  forall c cl, clients s !! c = Some cl ->
    (terminated cl = true -> missed c tr) /\
    (isAlive cl = false -> heartbeat cl = true -> probing c tr).
Proof.
  induction tr as [|e tr IH] using rev_ind; intros s' Hrun c cl Hc.
  - simpl in Hrun. assert (s' = init) as -> by congruence.
    simpl in Hc. by rewrite lookup_empty in Hc.
  - apply run_snoc_inv in Hrun as (s & Hrun & Hen & ->).
    specialize (IH s Hrun c).
    assert (Hkeep : forall cl0, clients s !! c = Some cl0 ->
              terminated cl = terminated cl0 -> isAlive cl = isAlive cl0 ->
              heartbeat cl = heartbeat cl0 ->
              match e with Pong c' => c' <> c | _ => True end ->
              (terminated cl = true -> missed c (tr ++ [e])) /\
              (isAlive cl = false -> heartbeat cl = true -> probing c (tr ++ [e]))).
    { intros cl0 Hc0 -> -> -> He. destruct (IH cl0 Hc0) as [H1 H2].
      split; [intros; by apply missed_snoc, H1|intros; by apply probing_snoc; auto]. }
    destruct e as [c0|c0|c0|c0 parsed|c0|i m]; simpl in Hen, Hc.
    + destruct (decide (c = c0)) as [->|Hne].
      * rewrite lookup_insert_eq in Hc. by simplify_eq.
      * rewrite lookup_insert_ne in Hc by done. by apply (Hkeep cl).
    + destruct (clients s !! c0) as [cl0|] eqn:Hc0; [|done].
      unfold onHeartbeat in Hc.
      destruct (decide (c = c0)) as [->|Hne].
      * destruct (IH cl0 Hc0) as [H1 H2].
        destruct (isAlive cl0) eqn:Ha; simpl in Hc;
          rewrite lookup_insert_eq in Hc; simplify_eq; simpl.
        -- split; [intros; by apply missed_snoc, H1|].
           intros _ _. exists tr, []. split; [done|constructor].
        -- split; [|done]. intros _. by apply probing_then_tick, H2.
      * destruct (isAlive cl0); simpl in Hc;
          rewrite lookup_insert_ne in Hc by done; by apply (Hkeep cl).
    + destruct (clients s !! c0) as [cl0|] eqn:Hc0; [|done]. simpl in Hc.
      destruct (decide (c = c0)) as [->|Hne].
      * rewrite lookup_insert_eq in Hc. simplify_eq. simpl.
        destruct (IH cl0 Hc0) as [H1 _].
        split; [intros; by apply missed_snoc, H1|done].
      * rewrite lookup_insert_ne in Hc by done. apply (Hkeep cl); try done.
    + rewrite (proj1 (onMessage_clients_cleanups c0 parsed s)) in Hc.
      by apply (Hkeep cl).
    + destruct (clients s !! c0) as [cl0|] eqn:Hc0; [|done]. simpl in Hc.
      destruct (decide (c = c0)) as [->|Hne].
      * rewrite lookup_insert_eq in Hc. simplify_eq. by apply (Hkeep cl0).
      * rewrite lookup_insert_ne in Hc by done. by apply (Hkeep cl).
    + by apply (Hkeep cl).
Qed.

(** The heartbeat terminates a connection only over a missed probe: if
    the transport of a connection was terminated, the run holds two
    periods of that connection with no pong from it in between.  A
    connection that answers every probe before the next period is never
    terminated. *)
Theorem terminated_only_after_missed_probe tr s c cl :
  run tr init = Some s -> clients s !! c = Some cl -> terminated cl = true ->
  missed c tr.
Proof.
  intros Hrun Hc Ht. by apply (proj1 (probes_invariant tr s Hrun c cl Hc)).
Qed.

Lemma terminated_only_after_missed_probe_witness :
  exists s,
    run [Connection 0; Tick 0; Pong 0; Tick 0; Close 0; Tick 0] init = Some s /\
    clients s !! 0 = Some (mkClient false false true true) /\
    missed 0 [Connection 0; Tick 0; Pong 0; Tick 0; Close 0; Tick 0].
Proof.
  eexists. split; [reflexivity|]. split; [reflexivity|].
  exact (terminated_only_after_missed_probe
           [Connection 0; Tick 0; Pong 0; Tick 0; Close 0; Tick 0] _ 0 _
           eq_refl eq_refl eq_refl).
Defined.

Lemma silence_terminates_witness :
  clients (with_client 0 (mkClient true true false false) init) !! 0
    = Some (mkClient true true false false) /\
  silent 0 [Tick 0; Message 0 (Some (frameOn "frontend")); Tick 0] /\
  ticks 0 [Tick 0; Message 0 (Some (frameOn "frontend")); Tick 0] <= 2 /\
  exists s',
    run [Tick 0; Message 0 (Some (frameOn "frontend")); Tick 0]
        (with_client 0 (mkClient true true false false) init) = Some s' /\
    clients s' !! 0 = Some (mkClient false false true false).
Proof.
  assert (Hs : silent 0 [Tick 0; Message 0 (Some (frameOn "frontend")); Tick 0])
    by (repeat constructor).
  split; [reflexivity|]. split; [exact Hs|].
  split.
  - exact (proj1 (silence_terminates
             [Tick 0; Message 0 (Some (frameOn "frontend")); Tick 0]
             (with_client 0 (mkClient true true false false) init) _ 0
             (mkClient true true false false) eq_refl eq_refl Hs eq_refl)).
  - eexists. split; reflexivity.
Defined.

End ServerExtra.

(** * Further properties of the database worker *)

Module DbWorkerExtra.
Import DbWorker DbWorkerFacts.

Lemma onMessage_course B message db : course message (onMessage B message db).1.
Proof.
  unfold onMessage.
  destruct (getConnection B db) as [[err|h] db1]; [constructor|].
  destruct message as [ty rq d]. cbn [data request type].
  assert (Hgo : forall d', d' = d -> d <> JUndefined -> d <> JNull ->
    course (mkJob ty rq d)
      (if strict_eq_str rq "insert"
       then let '(later, db3) :=
              resume (handleInsertRequest B h ty (get_prop d' "cluster_id")
                        (get_prop d' "temperature") (get_prop d' "humidity"))
                     (release B h db1) in
            (Acquired :: issued (handleInsertRequest B h ty (get_prop d' "cluster_id")
                        (get_prop d' "temperature") (get_prop d' "humidity"))
               ++ Released :: later, db3)
       else ([Acquired; Released], release B h db1)).1).
  { intros d' -> _ _.
    destruct (strict_eq_str rq "insert") eqn:Hrq; [|by constructor].
    unfold handleInsertRequest.
    destruct (strict_eq_zero ty) eqn:Hty; cbn [issued resume].
    - destruct (query B h selectQuery _ _) as [[err|rows] db2]; [by constructor|].
      case_bool_decide; [|by constructor].
      destruct (query B h insertClusterQuery _ _) as [[err|r] db3]; by constructor.
    - destruct (query B h insertSensorQuery _ _) as [[err|r] db2]; by constructor. }
  destruct d; try (by apply Hgo); apply (course_no_data (mkJob ty rq _)); auto.
Qed.

(** Statements are the three fixed texts, with the job's fields as bound
    parameters only: a kind-0 job works on [cluster_records] with the
    cluster identifier alone, a job of any other kind (a kind given as a
    string or missing included) issues the one [INSERT] into
    [sensor_records] and never looks at [cluster_records]; and only an
    ["insert"] job issues any statement. *)
Theorem statements_by_kind B message db sql args :
  Query sql args ∈ (onMessage B message db).1 ->
  strict_eq_str (request message) "insert" = true /\
  if strict_eq_zero (type message)
  then (sql = selectQuery \/ sql = insertClusterQuery) /\
       args = [get_prop (data message) "cluster_id"]
  else sql = insertSensorQuery /\
       args = [get_prop (data message) "cluster_id";
               get_prop (data message) "temperature";
               get_prop (data message) "humidity"].
Proof.
  intros Hin. pose proof (onMessage_course B message db) as Hc.
  destruct Hc as [err|Hd|Hrq|err Hrq Hty|Hrq Hty|err Hrq Hty|Hrq Hty|err Hrq Hty|Hrq Hty];
    rewrite ?Hty; (split; [try done|]);
    repeat (apply elem_of_cons in Hin as [Hin|Hin]; [simplify_eq; auto|]);
    try (by apply elem_of_nil in Hin).
Qed.

Lemma statements_by_kind_witness :
  (Query insertSensorQuery [JStr "c1"; JNum 21; JNum 40]
     ∈ (onMessage memdb Dispatcher.jobB emptyStore).1) /\
  strict_eq_str (request Dispatcher.jobB) "insert" = true.
Proof.
  assert (Hin : Query insertSensorQuery [JStr "c1"; JNum 21; JNum 40]
                  ∈ (onMessage memdb Dispatcher.jobB emptyStore).1).
  { vm_compute. apply list_elem_of_further, list_elem_of_here. }
  split; [exact Hin|].
  exact (proj1 (statements_by_kind memdb Dispatcher.jobB emptyStore _ _ Hin)).
Defined.

(** The [INSERT] into [cluster_records] is always issued on a handle
    that was already given back to the pool: in every run the release
    comes before it. *)
Theorem cluster_insert_after_release B message db i args :
  (onMessage B message db).1 !! i = Some (Query insertClusterQuery args) ->
  exists k, k < i /\ (onMessage B message db).1 !! k = Some Released.
Proof.
  intros Hi. pose proof (onMessage_course B message db) as Hc.
  destruct Hc;
    repeat (destruct i as [|i]; simplify_eq/=);
    exists 2; split; (lia || done).
Qed.

Lemma cluster_insert_after_release_witness :
  (onMessage memdb Dispatcher.jobA emptyStore).1 !! 3
    = Some (Query insertClusterQuery [JStr "c1"]) /\
  exists k, k < 3 /\ (onMessage memdb Dispatcher.jobA emptyStore).1 !! k = Some Released.
Proof.
  split; [reflexivity|].
  exact (cluster_insert_after_release memdb Dispatcher.jobA emptyStore 3 _ eq_refl).
Defined.

(** What a completion signal means.  ["success"] is posted only for an
    ["insert"] job, with no error text, after the handle was released.
    ["error"] is posted only when no handle could be acquired or the job
    has no data: then no statement was issued and nothing was released.
    A failed statement is never reported. *)
Theorem signal_meaning B message db m :
  Posted m ∈ (onMessage B message db).1 ->
  (result m = "success" /\ error m = None /\
   strict_eq_str (request message) "insert" = true /\
   count isReleased (onMessage B message db).1 = 1) \/
  (result m = "error" /\ is_Some (error m) /\
   count isReleased (onMessage B message db).1 = 0 /\
   forall sql args, Query sql args ∉ (onMessage B message db).1).
Proof.
  intros Hin. pose proof (onMessage_course B message db) as Hc.
  destruct Hc;
    repeat (apply elem_of_cons in Hin as [Hin|Hin]; [simplify_eq|]);
    try (by apply elem_of_nil in Hin);
    first [ left; split_and!; done
          | right; split_and!; [done|by eexists|done|];
            intros sql args Hq;
            repeat (apply elem_of_cons in Hq as [Hq|Hq]; [simplify_eq|]);
            by apply elem_of_nil in Hq ].
Qed.

Lemma signal_meaning_witness :
  (Posted (mkCompletion "error" (Some "pool is closed"))
     ∈ (onMessage downdb Dispatcher.jobA emptyStore).1) /\
  count isReleased (onMessage downdb Dispatcher.jobA emptyStore).1 = 0.
Proof.
  assert (Hin : Posted (mkCompletion "error" (Some "pool is closed"))
                  ∈ (onMessage downdb Dispatcher.jobA emptyStore).1).
  { vm_compute. apply list_elem_of_here. }
  split; [exact Hin|].
  destruct (signal_meaning downdb Dispatcher.jobA emptyStore _ Hin)
    as [(Hr & _)|(_ & _ & H0 & _)]; [discriminate Hr|exact H0].
Defined.

Lemma released_without_throw_witness :
  getConnection memdb emptyStore = (inr tt, mkStore [] [] 1) /\
  count isAcquired
    (onMessage memdb (mkJob (JStr "0") (JStr "delete") (JObj [])) emptyStore).1 = 1 /\
  count isReleased
    (onMessage memdb (mkJob (JStr "0") (JStr "delete") (JObj [])) emptyStore).1 = 1.
Proof.
  split; [reflexivity|].
  exact (released_without_throw memdb (JStr "0") (JStr "delete") [] emptyStore tt _
           eq_refl).
Defined.

End DbWorkerExtra.
